(** * FrameTicker: a frame-rate-normalising ticker

    A shallow embedding of [src/FrameTicker.ts] and the properties of its
    frame pump.

    Conventions of the embedding.

    - A JavaScript [number] is an exact extended rational: [NaN], the two
      infinities, or a finite rational.  Rounding of IEEE doubles and the
      sign of zero are not represented; [x / 0] is an infinity of the sign
      of [x] (or [NaN] for [0 / 0]).  Where the rounding of doubles
      decides, for the number of iterations of the catch-up loop, the
      frame pump is given a second time, with every arithmetic result
      rounded to binary64.
    - The ticker, the host [window] and the trace of the calls made to the
      signals form one [World], threaded through every method.
    - A method returns a [Completion]: it returns normally, throws, or (for
      the catch-up loop only) exhausts the iteration budget it was given.
    - A listener is a function from what it can know when it is called
      (its arguments, the public properties of the ticker, the time and
      the history) to the script of calls it makes on the ticker's public
      interface; running a script takes a bound on the depth of nested
      listener calls, the call stack.
    - The wall clock only advances while a listener runs; between
      operations it can be set to any time. *)

From Stdlib Require Import ZArith NArith QArith Qround Qpower Lqa Lia List Bool.
Import ListNotations.

Local Open Scope Q_scope.

(** ** Numbers *)

Inductive number : Type :=
| NaN
| PosInf
| NegInf
| Fin (q : Q).

Definition ofZ (z : Z) : number := Fin (inject_Z z).

(** [isNaN(x)] *)
Definition isNaN (x : number) : bool :=
  match x with NaN => true | _ => false end.

(** [-x] *)
Definition num_neg (x : number) : number :=
  match x with
  | NaN => NaN
  | PosInf => NegInf
  | NegInf => PosInf
  | Fin q => Fin (- q)
  end.

(** [x + y] *)
Definition num_add (x y : number) : number :=
  match x, y with
  | NaN, _ | _, NaN => NaN
  | PosInf, NegInf | NegInf, PosInf => NaN
  | PosInf, _ | _, PosInf => PosInf
  | NegInf, _ | _, NegInf => NegInf
  | Fin a, Fin b => Fin (a + b)
  end.

(** [x - y] *)
Definition num_sub (x y : number) : number := num_add x (num_neg y).

(** The sign of a rational as a comparison with zero. *)
Definition sgn (q : Q) : comparison := q ?= 0.

Definition inf_of (c : comparison) : number :=
  match c with Eq => NaN | Gt => PosInf | Lt => NegInf end.

(** [x * y] *)
Definition num_mul (x y : number) : number :=
  match x, y with
  | NaN, _ | _, NaN => NaN
  | Fin a, Fin b => Fin (a * b)
  | PosInf, PosInf | NegInf, NegInf => PosInf
  | PosInf, NegInf | NegInf, PosInf => NegInf
  | PosInf, Fin b | Fin b, PosInf => inf_of (sgn b)
  | NegInf, Fin b | Fin b, NegInf => inf_of (CompOpp (sgn b))
  end.

(** [x / y] *)
Definition num_div (x y : number) : number :=
  match x, y with
  | NaN, _ | _, NaN => NaN
  | Fin a, Fin b =>
      match sgn b with
      | Eq => inf_of (sgn a)
      | _ => Fin (a / b)
      end
  | Fin _, (PosInf | NegInf) => Fin 0
  | (PosInf | NegInf), (PosInf | NegInf) => NaN
  | PosInf, Fin b => match sgn b with Lt => NegInf | _ => PosInf end
  | NegInf, Fin b => match sgn b with Lt => PosInf | _ => NegInf end
  end.

(** [x <= y]; false as soon as one side is [NaN]. *)
Definition num_le (x y : number) : bool :=
  match x, y with
  | NaN, _ | _, NaN => false
  | NegInf, _ | _, PosInf => true
  | PosInf, _ | _, NegInf => false
  | Fin a, Fin b => Qle_bool a b
  end.

(** [x >= y] *)
Definition num_ge (x y : number) : bool := num_le y x.

(** [x < y] *)
Definition num_lt (x y : number) : bool :=
  match x, y with
  | NaN, _ | _, NaN => false
  | PosInf, _ | _, NegInf => false
  | NegInf, _ | _, PosInf => true
  | Fin a, Fin b => negb (Qle_bool b a)
  end.

(** [x === y] *)
Definition strictEq (x y : number) : bool :=
  match x, y with
  | PosInf, PosInf | NegInf, NegInf => true
  | Fin a, Fin b => Qeq_bool a b
  | _, _ => false
  end.

(** [Math.min(x, y)] *)
Definition Math_min (x y : number) : number :=
  match x, y with
  | NaN, _ | _, NaN => NaN
  | _, _ => if num_le x y then x else y
  end.

Declare Scope number_scope.
Delimit Scope number_scope with num.
Bind Scope number_scope with number.
Infix "+" := num_add : number_scope.
Infix "-" := num_sub : number_scope.
Infix "*" := num_mul : number_scope.
Infix "/" := num_div : number_scope.
Infix "<=?" := num_le (at level 70, no associativity) : number_scope.
Infix ">=?" := num_ge (at level 70, no associativity) : number_scope.
Infix "<?" := num_lt (at level 70, no associativity) : number_scope.

(** ** Listeners and signals *)

(** The four notification channels of a ticker. *)
Inductive Channel : Type := OnResume | OnPause | OnTick | OnTickOncePerFrame.

(** The arguments of a [TickCallback]:
    [(currentTimeSeconds, tickDeltaTimeSeconds, currentTick)]. *)
Definition TickArgs : Type := (number * number * N)%type.

(** What a listener can do to the ticker while it runs: call its public
    methods, assign [timeScale], or simply take time. *)
Inductive Action : Type :=
| CallResume
| CallPause
| CallDispose
| SetTimeScale (value : number)
| Elapse (ms : N).

Definition Script : Type := list Action.

(** What the signals were asked to do, in order.  The trace is an
    observation only: no method reads it. *)
Inductive Event : Type :=
| Dispatched (ch : Channel) (args : option TickArgs) (running : bool)
| Notified (ch : Channel) (listener : nat) (args : option TickArgs)
| CallbackInvoked (args : TickArgs).

(** What a function that is called can know: the public properties of
    the ticker, the time, and what has happened so far. *)
Record Observation : Type := mkObservation {
  sees_isRunning : bool;
  sees_timeScale : number;
  sees_currentTick : N;
  sees_currentTimeSeconds : number;
  sees_tickDeltaTimeSeconds : number;
  sees_now : Z;
  sees_history : list Event
}.

(** A subscribed function: an identity and the calls it makes, given
    what it can know and the arguments of the dispatch ([None] on the
    resume and pause signals). *)
Record Listener : Type := mkListener {
  lid : nat;
  body : Observation -> option TickArgs -> Script
}.

(** Modelled from the spec: [SimpleSignal] comes from the [simplesignal]
    package, which is not part of the sources; a signal is the ordered
    collection of its subscribers, with add, remove-all and a synchronous,
    in-order dispatch to the subscribers it has when the dispatch starts. *)
Definition SimpleSignal : Type := list Listener.

Definition add (func : Listener) (s : SimpleSignal) : SimpleSignal := s ++ [func].

Definition removeAll (s : SimpleSignal) : SimpleSignal := [].

(** ** State *)

Record FrameTicker : Type := mkFrameTicker {
  _isRunning : bool;
  _timeScale : number;
  _currentTick : N;
  _currentTime : number;
  _tickDeltaTime : number;
  _minFPS : number;
  _maxFPS : number;
  _lastTimeUpdated : number;
  _minInterval : number;
  _maxInterval : number;
  _now : number;
  _frameDeltaTime : number;
  _interval : number;
  _onResume : SimpleSignal;
  _onPause : SimpleSignal;
  _onTick : SimpleSignal;
  _onTickOncePerFrame : SimpleSignal;
  _animationFrameHandle : option Z
}.

Definition set_isRunning (v : bool) (t : FrameTicker) : FrameTicker :=
  {| _isRunning := v; _timeScale := _timeScale t; _currentTick := _currentTick t;
     _currentTime := _currentTime t; _tickDeltaTime := _tickDeltaTime t; _minFPS := _minFPS t;
     _maxFPS := _maxFPS t; _lastTimeUpdated := _lastTimeUpdated t; _minInterval := _minInterval t;
     _maxInterval := _maxInterval t; _now := _now t; _frameDeltaTime := _frameDeltaTime t;
     _interval := _interval t; _onResume := _onResume t; _onPause := _onPause t;
     _onTick := _onTick t; _onTickOncePerFrame := _onTickOncePerFrame t;
     _animationFrameHandle := _animationFrameHandle t |}.

Definition set_timeScale (v : number) (t : FrameTicker) : FrameTicker :=
  {| _isRunning := _isRunning t; _timeScale := v; _currentTick := _currentTick t;
     _currentTime := _currentTime t; _tickDeltaTime := _tickDeltaTime t; _minFPS := _minFPS t;
     _maxFPS := _maxFPS t; _lastTimeUpdated := _lastTimeUpdated t; _minInterval := _minInterval t;
     _maxInterval := _maxInterval t; _now := _now t; _frameDeltaTime := _frameDeltaTime t;
     _interval := _interval t; _onResume := _onResume t; _onPause := _onPause t;
     _onTick := _onTick t; _onTickOncePerFrame := _onTickOncePerFrame t;
     _animationFrameHandle := _animationFrameHandle t |}.

Definition set_currentTick (v : N) (t : FrameTicker) : FrameTicker :=
  {| _isRunning := _isRunning t; _timeScale := _timeScale t; _currentTick := v;
     _currentTime := _currentTime t; _tickDeltaTime := _tickDeltaTime t; _minFPS := _minFPS t;
     _maxFPS := _maxFPS t; _lastTimeUpdated := _lastTimeUpdated t; _minInterval := _minInterval t;
     _maxInterval := _maxInterval t; _now := _now t; _frameDeltaTime := _frameDeltaTime t;
     _interval := _interval t; _onResume := _onResume t; _onPause := _onPause t;
     _onTick := _onTick t; _onTickOncePerFrame := _onTickOncePerFrame t;
     _animationFrameHandle := _animationFrameHandle t |}.

Definition set_currentTime (v : number) (t : FrameTicker) : FrameTicker :=
  {| _isRunning := _isRunning t; _timeScale := _timeScale t; _currentTick := _currentTick t;
     _currentTime := v; _tickDeltaTime := _tickDeltaTime t; _minFPS := _minFPS t;
     _maxFPS := _maxFPS t; _lastTimeUpdated := _lastTimeUpdated t; _minInterval := _minInterval t;
     _maxInterval := _maxInterval t; _now := _now t; _frameDeltaTime := _frameDeltaTime t;
     _interval := _interval t; _onResume := _onResume t; _onPause := _onPause t;
     _onTick := _onTick t; _onTickOncePerFrame := _onTickOncePerFrame t;
     _animationFrameHandle := _animationFrameHandle t |}.

Definition set_tickDeltaTime (v : number) (t : FrameTicker) : FrameTicker :=
  {| _isRunning := _isRunning t; _timeScale := _timeScale t; _currentTick := _currentTick t;
     _currentTime := _currentTime t; _tickDeltaTime := v; _minFPS := _minFPS t;
     _maxFPS := _maxFPS t; _lastTimeUpdated := _lastTimeUpdated t; _minInterval := _minInterval t;
     _maxInterval := _maxInterval t; _now := _now t; _frameDeltaTime := _frameDeltaTime t;
     _interval := _interval t; _onResume := _onResume t; _onPause := _onPause t;
     _onTick := _onTick t; _onTickOncePerFrame := _onTickOncePerFrame t;
     _animationFrameHandle := _animationFrameHandle t |}.

Definition set_lastTimeUpdated (v : number) (t : FrameTicker) : FrameTicker :=
  {| _isRunning := _isRunning t; _timeScale := _timeScale t; _currentTick := _currentTick t;
     _currentTime := _currentTime t; _tickDeltaTime := _tickDeltaTime t; _minFPS := _minFPS t;
     _maxFPS := _maxFPS t; _lastTimeUpdated := v; _minInterval := _minInterval t;
     _maxInterval := _maxInterval t; _now := _now t; _frameDeltaTime := _frameDeltaTime t;
     _interval := _interval t; _onResume := _onResume t; _onPause := _onPause t;
     _onTick := _onTick t; _onTickOncePerFrame := _onTickOncePerFrame t;
     _animationFrameHandle := _animationFrameHandle t |}.

Definition set_now (v : number) (t : FrameTicker) : FrameTicker :=
  {| _isRunning := _isRunning t; _timeScale := _timeScale t; _currentTick := _currentTick t;
     _currentTime := _currentTime t; _tickDeltaTime := _tickDeltaTime t; _minFPS := _minFPS t;
     _maxFPS := _maxFPS t; _lastTimeUpdated := _lastTimeUpdated t; _minInterval := _minInterval t;
     _maxInterval := _maxInterval t; _now := v; _frameDeltaTime := _frameDeltaTime t;
     _interval := _interval t; _onResume := _onResume t; _onPause := _onPause t;
     _onTick := _onTick t; _onTickOncePerFrame := _onTickOncePerFrame t;
     _animationFrameHandle := _animationFrameHandle t |}.

Definition set_frameDeltaTime (v : number) (t : FrameTicker) : FrameTicker :=
  {| _isRunning := _isRunning t; _timeScale := _timeScale t; _currentTick := _currentTick t;
     _currentTime := _currentTime t; _tickDeltaTime := _tickDeltaTime t; _minFPS := _minFPS t;
     _maxFPS := _maxFPS t; _lastTimeUpdated := _lastTimeUpdated t; _minInterval := _minInterval t;
     _maxInterval := _maxInterval t; _now := _now t; _frameDeltaTime := v;
     _interval := _interval t; _onResume := _onResume t; _onPause := _onPause t;
     _onTick := _onTick t; _onTickOncePerFrame := _onTickOncePerFrame t;
     _animationFrameHandle := _animationFrameHandle t |}.

Definition set_interval (v : number) (t : FrameTicker) : FrameTicker :=
  {| _isRunning := _isRunning t; _timeScale := _timeScale t; _currentTick := _currentTick t;
     _currentTime := _currentTime t; _tickDeltaTime := _tickDeltaTime t; _minFPS := _minFPS t;
     _maxFPS := _maxFPS t; _lastTimeUpdated := _lastTimeUpdated t; _minInterval := _minInterval t;
     _maxInterval := _maxInterval t; _now := _now t; _frameDeltaTime := _frameDeltaTime t;
     _interval := v; _onResume := _onResume t; _onPause := _onPause t;
     _onTick := _onTick t; _onTickOncePerFrame := _onTickOncePerFrame t;
     _animationFrameHandle := _animationFrameHandle t |}.

Definition set_onResume (v : SimpleSignal) (t : FrameTicker) : FrameTicker :=
  {| _isRunning := _isRunning t; _timeScale := _timeScale t; _currentTick := _currentTick t;
     _currentTime := _currentTime t; _tickDeltaTime := _tickDeltaTime t; _minFPS := _minFPS t;
     _maxFPS := _maxFPS t; _lastTimeUpdated := _lastTimeUpdated t; _minInterval := _minInterval t;
     _maxInterval := _maxInterval t; _now := _now t; _frameDeltaTime := _frameDeltaTime t;
     _interval := _interval t; _onResume := v; _onPause := _onPause t;
     _onTick := _onTick t; _onTickOncePerFrame := _onTickOncePerFrame t;
     _animationFrameHandle := _animationFrameHandle t |}.

Definition set_onPause (v : SimpleSignal) (t : FrameTicker) : FrameTicker :=
  {| _isRunning := _isRunning t; _timeScale := _timeScale t; _currentTick := _currentTick t;
     _currentTime := _currentTime t; _tickDeltaTime := _tickDeltaTime t; _minFPS := _minFPS t;
     _maxFPS := _maxFPS t; _lastTimeUpdated := _lastTimeUpdated t; _minInterval := _minInterval t;
     _maxInterval := _maxInterval t; _now := _now t; _frameDeltaTime := _frameDeltaTime t;
     _interval := _interval t; _onResume := _onResume t; _onPause := v;
     _onTick := _onTick t; _onTickOncePerFrame := _onTickOncePerFrame t;
     _animationFrameHandle := _animationFrameHandle t |}.

Definition set_onTick (v : SimpleSignal) (t : FrameTicker) : FrameTicker :=
  {| _isRunning := _isRunning t; _timeScale := _timeScale t; _currentTick := _currentTick t;
     _currentTime := _currentTime t; _tickDeltaTime := _tickDeltaTime t; _minFPS := _minFPS t;
     _maxFPS := _maxFPS t; _lastTimeUpdated := _lastTimeUpdated t; _minInterval := _minInterval t;
     _maxInterval := _maxInterval t; _now := _now t; _frameDeltaTime := _frameDeltaTime t;
     _interval := _interval t; _onResume := _onResume t; _onPause := _onPause t;
     _onTick := v; _onTickOncePerFrame := _onTickOncePerFrame t;
     _animationFrameHandle := _animationFrameHandle t |}.

Definition set_onTickOncePerFrame (v : SimpleSignal) (t : FrameTicker) : FrameTicker :=
  {| _isRunning := _isRunning t; _timeScale := _timeScale t; _currentTick := _currentTick t;
     _currentTime := _currentTime t; _tickDeltaTime := _tickDeltaTime t; _minFPS := _minFPS t;
     _maxFPS := _maxFPS t; _lastTimeUpdated := _lastTimeUpdated t; _minInterval := _minInterval t;
     _maxInterval := _maxInterval t; _now := _now t; _frameDeltaTime := _frameDeltaTime t;
     _interval := _interval t; _onResume := _onResume t; _onPause := _onPause t;
     _onTick := _onTick t; _onTickOncePerFrame := v;
     _animationFrameHandle := _animationFrameHandle t |}.

Definition set_animationFrameHandle (v : option Z) (t : FrameTicker) : FrameTicker :=
  {| _isRunning := _isRunning t; _timeScale := _timeScale t; _currentTick := _currentTick t;
     _currentTime := _currentTime t; _tickDeltaTime := _tickDeltaTime t; _minFPS := _minFPS t;
     _maxFPS := _maxFPS t; _lastTimeUpdated := _lastTimeUpdated t; _minInterval := _minInterval t;
     _maxInterval := _maxInterval t; _now := _now t; _frameDeltaTime := _frameDeltaTime t;
     _interval := _interval t; _onResume := _onResume t; _onPause := _onPause t;
     _onTick := _onTick t; _onTickOncePerFrame := _onTickOncePerFrame t;
     _animationFrameHandle := v |}.

(** Modelled from the spec: the host environment.  [Date.now()], the
    callbacks registered for the next visual frame (by handle, oldest
    first), the last handle given out (handles are positive), and whether
    the window has a property [clearAnimationFrame].  The DOM [Window]
    interface and the window built by [test/.setup.js] define
    [requestAnimationFrame] and [cancelAnimationFrame] only. *)
Record Window : Type := mkWindow {
  dateNow : Z;
  frameRequests : list Z;
  lastHandle : Z;
  hasClearAnimationFrame : bool
}.

Record World : Type := mkWorld {
  ticker : FrameTicker;
  window : Window;
  trace : list Event
}.

Definition withTicker (f : FrameTicker -> FrameTicker) (w : World) : World :=
  {| ticker := f (ticker w); window := window w; trace := trace w |}.

Definition withWindow (f : Window -> Window) (w : World) : World :=
  {| ticker := ticker w; window := f (window w); trace := trace w |}.

Definition log (e : Event) (w : World) : World :=
  {| ticker := ticker w; window := window w; trace := trace w ++ [e] |}.

(** ** Completions *)

Inductive Error : Type := TypeError | RangeError.

(** How a call ends: it returns, it throws, or the catch-up loop is still
    running when its iteration budget is spent. *)
Inductive Outcome : Type :=
| Returned
| Threw (e : Error)
| Hung.

Definition Completion : Type := (Outcome * World)%type.

Definition ret (w : World) : Completion := (Returned, w).

Definition throw (e : Error) (w : World) : Completion := (Threw e, w).

Definition bind (c : Completion) (k : World -> Completion) : Completion :=
  match c with
  | (Returned, w) => k w
  | _ => c
  end.

Notation "w <- c ;; k" := (bind c (fun w => k))
  (at level 61, c at next level, right associativity).

(** How a called function's script is run. *)
Definition Runner : Type := Script -> World -> Completion.

(** ** The host *)

(** [Date.now()] *)
Definition getTimer (w : World) : number := ofZ (dateNow (window w)).

(** Modelled from the spec: [window.requestAnimationFrame(callback)]
    registers the callback for the next visual frame and returns its
    handle. *)
Definition requestAnimationFrame (w : World) : Z * World :=
  let h := (lastHandle (window w) + 1)%Z in
  (h, withWindow (fun win =>
        {| dateNow := dateNow win;
           frameRequests := frameRequests win ++ [h];
           lastHandle := h;
           hasClearAnimationFrame := hasClearAnimationFrame win |}) w).

Definition withoutRequest (h : Z) (win : Window) : Window :=
  {| dateNow := dateNow win;
     frameRequests := filter (fun h' => negb (h' =? h)%Z) (frameRequests win);
     lastHandle := lastHandle win;
     hasClearAnimationFrame := hasClearAnimationFrame win |}.

(** Modelled from the spec: [window.cancelAnimationFrame(handle)] cancels
    a pending registration and accepts a stale handle. *)
Definition cancelAnimationFrame (h : Z) (w : World) : World :=
  withWindow (withoutRequest h) w.

(** [window.clearAnimationFrame(handle)]: calling a property the window
    does not have throws a [TypeError]; where the window has it, it is
    taken to cancel the registration. *)
Definition clearAnimationFrame (h : Z) (w : World) : Completion :=
  if hasClearAnimationFrame (window w)
  then ret (cancelAnimationFrame h w)
  else throw TypeError w.

(** Time passes on the wall clock. *)
Definition elapse (ms : N) (w : World) : World :=
  withWindow (fun win =>
    {| dateNow := (dateNow win + Z.of_N ms)%Z;
       frameRequests := frameRequests win;
       lastHandle := lastHandle win;
       hasClearAnimationFrame := hasClearAnimationFrame win |}) w.

(** ** Signals of a ticker *)

Definition signal (ch : Channel) (t : FrameTicker) : SimpleSignal :=
  match ch with
  | OnResume => _onResume t
  | OnPause => _onPause t
  | OnTick => _onTick t
  | OnTickOncePerFrame => _onTickOncePerFrame t
  end.

(** What a function called in world [w] can know. *)
Definition observe (w : World) : Observation :=
  let t := ticker w in
  {| sees_isRunning := _isRunning t;
     sees_timeScale := _timeScale t;
     sees_currentTick := _currentTick t;
     sees_currentTimeSeconds := (_currentTime t / ofZ 1000)%num;
     sees_tickDeltaTimeSeconds := (_tickDeltaTime t / ofZ 1000)%num;
     sees_now := dateNow (window w);
     sees_history := trace w |}.

(** Calls the functions one after the other; a throw ends the round. *)
Fixpoint callEach (run : Runner) (ch : Channel) (args : option TickArgs)
    (functions : list Listener) (w : World) : Completion :=
  match functions with
  | [] => ret w
  | func :: rest =>
      w1 <- run (body func (observe w) args) (log (Notified ch (lid func) args) w) ;;
      callEach run ch args rest w1
  end.

(** [signal.dispatch(...args)] *)
Definition dispatch (run : Runner) (ch : Channel) (args : option TickArgs)
    (w : World) : Completion :=
  let functionsDuplicate := signal ch (ticker w) in
  callEach run ch args functionsDuplicate
    (log (Dispatched ch args (_isRunning (ticker w))) w).

(** ** Accessors *)

Definition currentTick (t : FrameTicker) : N := _currentTick t.

Definition currentTimeSeconds (t : FrameTicker) : number :=
  (_currentTime t / ofZ 1000)%num.

Definition tickDeltaTimeSeconds (t : FrameTicker) : number :=
  (_tickDeltaTime t / ofZ 1000)%num.

Definition timeScale (t : FrameTicker) : number := _timeScale t.

Definition isRunning (t : FrameTicker) : bool := _isRunning t.

(** The [timeScale] setter. *)
Definition set_timeScale_value (value : number) (w : World) : World :=
  if negb (strictEq (_timeScale (ticker w)) value)
  then withTicker (set_timeScale value) w
  else w.

(** The snapshot handed to tick callbacks. *)
Definition snapshot (t : FrameTicker) : TickArgs :=
  (currentTimeSeconds t, tickDeltaTimeSeconds t, currentTick t).

(** ** Methods *)

(** [if (handle)]: neither [undefined], [null] nor [0]. *)
Definition truthy (handle : option Z) : bool :=
  match handle with
  | Some h => negb (h =? 0)%Z
  | None => false
  end.

Definition animateOnce (w : World) : Completion :=
  w1 <- match _animationFrameHandle (ticker w) with
        | Some h => if truthy (Some h) then clearAnimationFrame h w else ret w
        | None => ret w
        end ;;
  let (h, w2) := requestAnimationFrame w1 in
  ret (withTicker (set_animationFrameHandle (Some h)) w2).

Definition resume (run : Runner) (w : World) : Completion :=
  if negb (_isRunning (ticker w)) then
    let w1 := withTicker (set_isRunning true) w in
    let w2 := withTicker (set_lastTimeUpdated (getTimer w1)) w1 in
    w3 <- dispatch run OnResume None w2 ;;
    animateOnce w3
  else ret w.

Definition pause (run : Runner) (w : World) : Completion :=
  w1 <- (if _isRunning (ticker w)
         then dispatch run OnPause None (withTicker (set_isRunning false) w)
         else ret w) ;;
  match _animationFrameHandle (ticker w1) with
  | Some h =>
      if truthy (Some h)
      then ret (withTicker (set_animationFrameHandle None) (cancelAnimationFrame h w1))
      else ret w1
  | None => ret w1
  end.

Definition dispose (run : Runner) (w : World) : Completion :=
  w1 <- pause run w ;;
  let w2 := withTicker (fun t => set_onResume (removeAll (_onResume t)) t) w1 in
  let w3 := withTicker (fun t => set_onPause (removeAll (_onPause t)) t) w2 in
  ret (withTicker (fun t => set_onTick (removeAll (_onTick t)) t) w3).

Definition updateOnce (run : Runner) (callback : Observation -> TickArgs -> Script)
    (w : World) : Completion :=
  let args := snapshot (ticker w) in
  run (callback (observe w) args) (log (CallbackInvoked args) w).

Definition update (run : Runner) (timePassedMS : number) (newVisualFrame : bool)
    (w : World) : Completion :=
  let w1 := withTicker (fun t => set_currentTick (_currentTick t + 1)%N t) w in
  let w2 := withTicker (fun t => set_currentTime (_currentTime t + timePassedMS)%num t) w1 in
  let w3 := withTicker (set_tickDeltaTime timePassedMS) w2 in
  w4 <- dispatch run OnTick (Some (snapshot (ticker w3))) w3 ;;
  if newVisualFrame
  then dispatch run OnTickOncePerFrame (Some (snapshot (ticker w4))) w4
  else ret w4.

(** The catch-up loop of [onFrame].  [fuel] bounds the iterations; when
    it is spent and the loop condition still holds the outcome is [Hung]. *)
Fixpoint catchUp (run : Runner) (fuel : nat) (w : World) : Completion :=
  let t := ticker w in
  if (_now t >=? _lastTimeUpdated t + _interval t)%num then
    match fuel with
    | O => (Hung, w)
    | S fuel' =>
        w1 <- update run (_interval t * _timeScale t)%num
                (_now t <=? _lastTimeUpdated t + _maxInterval t * ofZ 2)%num w ;;
        catchUp run fuel'
          (withTicker (fun t1 =>
             set_lastTimeUpdated (_lastTimeUpdated t1 + _interval t1)%num t1) w1)
    end
  else ret w.

Definition onFrame (run : Runner) (fuel : nat) (w : World) : Completion :=
  let w1 := withTicker (set_now (getTimer w)) w in
  let w2 := withTicker (fun t =>
              set_frameDeltaTime (_now t - _lastTimeUpdated t)%num t) w1 in
  w5 <- (if isNaN (_minInterval (ticker w2))
            || (_frameDeltaTime (ticker w2) >=? _minInterval (ticker w2))%num
         then
           if negb (isNaN (_maxInterval (ticker w2))) then
             let w3 := withTicker (fun t =>
                         set_interval (Math_min (_frameDeltaTime t) (_maxInterval t)) t) w2 in
             catchUp run fuel w3
           else
             w3 <- update run
                     (_frameDeltaTime (ticker w2) * _timeScale (ticker w2))%num true w2 ;;
             ret (withTicker (fun t => set_lastTimeUpdated (_now t) t) w3)
         else ret w2) ;;
  if _isRunning (ticker w5) then animateOnce w5 else ret w5.

(** The constructor, in a given window. *)
Definition newFrameTicker (maxFPS minFPS : number) : FrameTicker :=
  {| _isRunning := false; _timeScale := ofZ 1; _currentTick := 0%N;
     _currentTime := ofZ 0; _tickDeltaTime := ofZ 0;
     _minFPS := minFPS; _maxFPS := maxFPS;
     _lastTimeUpdated := NaN;
     _minInterval := if isNaN maxFPS then NaN else (ofZ 1000 / maxFPS)%num;
     _maxInterval := if isNaN minFPS then NaN else (ofZ 1000 / minFPS)%num;
     _now := NaN; _frameDeltaTime := NaN; _interval := NaN;
     _onResume := []; _onPause := []; _onTick := []; _onTickOncePerFrame := [];
     _animationFrameHandle := None |}.

Definition constructor (run : Runner) (maxFPS minFPS : number) (paused : bool)
    (win : Window) : Completion :=
  let w := {| ticker := newFrameTicker maxFPS minFPS; window := win; trace := [] |} in
  if negb paused then resume run w else ret w.

(** ** Running listeners *)

(** One call made by a listener. *)
Definition perform (run : Runner) (a : Action) (w : World) : Completion :=
  match a with
  | CallResume => resume run w
  | CallPause => pause run w
  | CallDispose => dispose run w
  | SetTimeScale value => ret (set_timeScale_value value w)
  | Elapse ms => ret (elapse ms w)
  end.

(** Runs a script with room for [depth] nested calls on the stack; a
    call beyond that throws a [RangeError]. *)
Fixpoint runScript (depth : nat) : Runner :=
  match depth with
  | O => fun script w =>
      match script with
      | [] => ret w
      | _ :: _ => throw RangeError w
      end
  | S d =>
      fix go (script : Script) (w : World) : Completion :=
        match script with
        | [] => ret w
        | a :: rest => w1 <- perform (runScript d) a w ;; go rest w1
        end
  end.

(** ** The life of an instance *)

(** What can happen to a ticker from outside: calls on its public
    interface, subscriptions, the host calling a frame callback (one that
    is registered, or a stale one), and the wall clock moving. *)
Inductive Op : Type :=
| Resume
| Pause
| Dispose
| AssignTimeScale (value : number)
| UpdateOnce (callback : Observation -> TickArgs -> Script)
| Subscribe (ch : Channel) (func : Listener)
| Frame (handle : Z)
| StaleFrame
| SetClock (t : Z).

Definition subscribe (ch : Channel) (func : Listener) (t : FrameTicker) : FrameTicker :=
  match ch with
  | OnResume => set_onResume (add func (_onResume t)) t
  | OnPause => set_onPause (add func (_onPause t)) t
  | OnTick => set_onTick (add func (_onTick t)) t
  | OnTickOncePerFrame => set_onTickOncePerFrame (add func (_onTickOncePerFrame t)) t
  end.

Definition setClock (t : Z) (win : Window) : Window :=
  {| dateNow := t;
     frameRequests := frameRequests win;
     lastHandle := lastHandle win;
     hasClearAnimationFrame := hasClearAnimationFrame win |}.

Definition isPending (h : Z) (w : World) : bool :=
  existsb (Z.eqb h) (frameRequests (window w)).

Definition step (depth fuel : nat) (op : Op) (w : World) : Completion :=
  let run := runScript depth in
  match op with
  | Resume => resume run w
  | Pause => pause run w
  | Dispose => dispose run w
  | AssignTimeScale value => ret (set_timeScale_value value w)
  | UpdateOnce callback => updateOnce run callback w
  | Subscribe ch func => ret (withTicker (subscribe ch func) w)
  | Frame h =>
      if isPending h w
      then onFrame run fuel (withWindow (withoutRequest h) w)
      else ret w
  | StaleFrame => onFrame run fuel w
  | SetClock t => ret (withWindow (setClock t) w)
  end.

(** An uncaught throw ends the operation it happens in and the next one
    proceeds; nothing follows a catch-up loop that does not end. *)
Fixpoint lifetime (depth fuel : nat) (ops : list Op) (w : World) : Completion :=
  match ops with
  | [] => ret w
  | op :: rest =>
      match step depth fuel op w with
      | (Hung, w1) => (Hung, w1)
      | (_, w1) => lifetime depth fuel rest w1
      end
  end.

(** * The vocabulary of the properties *)

(** ** What a listener can reach

    The elementary changes made by [resume], [pause], [dispose], the
    [timeScale] setter and the passing of time, which are all that a
    script can cause.  The relation is parametric in which actions the
    scripts are made of ([okAction]), which dispatches may happen
    ([mayDispatch]), which may reach a listener ([mayNotify]) and which
    listeners ([allowed]). *)

Definition lifecycle (ch : Channel) : bool :=
  match ch with OnResume | OnPause => true | _ => false end.

Section Reachable.

Variable okAction : Action -> Prop.
Variable mayDispatch : Channel -> option TickArgs -> Prop.
Variable mayNotify : Channel -> option TickArgs -> Prop.
Variable allowed : Channel -> Listener -> Prop.

Inductive reach : World -> World -> Prop :=
| reach_running b w : reach w (withTicker (set_isRunning b) w)
| reach_last w : reach w (withTicker (set_lastTimeUpdated (getTimer w)) w)
| reach_scale v w :
    okAction (SetTimeScale v) -> reach w (withTicker (set_timeScale v) w)
| reach_handle h w : reach w (withTicker (set_animationFrameHandle h) w)
| reach_cancel h w : reach w (cancelAnimationFrame h w)
| reach_request w : reach w (snd (requestAnimationFrame w))
| reach_elapse ms w : reach w (elapse ms w)
| reach_dispatched ch args w :
    mayDispatch ch args ->
    reach w (log (Dispatched ch args (_isRunning (ticker w))) w)
| reach_notified ch args func w :
    mayNotify ch args -> allowed ch func ->
    reach w (log (Notified ch (lid func) args) w)
| reach_clear_resume w :
    reach w (withTicker (fun t => set_onResume (removeAll (_onResume t)) t) w)
| reach_clear_pause w :
    reach w (withTicker (fun t => set_onPause (removeAll (_onPause t)) t) w)
| reach_clear_tick w :
    reach w (withTicker (fun t => set_onTick (removeAll (_onTick t)) t) w).

End Reachable.

(** A runner under which [P] holds on, for scripts made of [okAction]. *)
Definition keeps (okAction : Action -> Prop) (P : World -> Prop) (run : Runner) : Prop :=
  forall script w, Forall okAction script -> P w -> P (snd (run script w)).

Definition anyAction (a : Action) : Prop := True.
Definition anyListener (ch : Channel) (func : Listener) : Prop := True.
Definition anyDispatch (ch : Channel) (args : option TickArgs) : Prop := True.
Definition lifecycleDispatch (ch : Channel) (args : option TickArgs) : Prop :=
  lifecycle ch = true /\ args = None.

(** ** What no listener can touch *)

(** The part of the state that only the frame pump writes. *)
Definition pumpState (w : World) :=
  let t := ticker w in
  (_currentTick t, _currentTime t, _tickDeltaTime t,
   (_minFPS t, _maxFPS t, _minInterval t, _maxInterval t),
   (_now t, _frameDeltaTime t, _interval t),
   _onTickOncePerFrame t, hasClearAnimationFrame (window w)).

Definition lifecycleEvent (e : Event) : bool :=
  match e with
  | Dispatched ch _ _ | Notified ch _ _ => lifecycle ch
  | CallbackInvoked _ => false
  end.

(** Events that are not a dispatch on a tick signal (nor a callback of
    [updateOnce]): resume and pause events, and notifications. *)
Definition calmEvent (e : Event) : bool :=
  match e with
  | Dispatched ch _ _ => lifecycle ch
  | Notified _ _ _ => true
  | CallbackInvoked _ => false
  end.

(** [w'] comes after [w] with the pump's state untouched, the clock not
    set back, [lastTimeUpdated] either untouched or read from the clock in
    between, and only events in [ev] added to the trace. *)
Definition lastMoved (w w' : World) : Prop :=
  _lastTimeUpdated (ticker w') = _lastTimeUpdated (ticker w)
  \/ exists z, _lastTimeUpdated (ticker w') = ofZ z
               /\ (dateNow (window w) <= z <= dateNow (window w'))%Z.

Definition after (ev : Event -> bool) (w w' : World) : Prop :=
  pumpState w' = pumpState w /\
  (dateNow (window w) <= dateNow (window w'))%Z /\
  lastMoved w w' /\
  exists evs, trace w' = trace w ++ evs /\ forallb ev evs = true.

Definition quiet : World -> World -> Prop := after lifecycleEvent.
Definition calm : World -> World -> Prop := after calmEvent.

(** ** Concrete worlds used by the examples *)

(** A window as browsers and the test setup provide it: no
    [clearAnimationFrame]. *)
Definition domWindow (now : Z) : Window :=
  {| dateNow := now; frameRequests := []; lastHandle := 0;
     hasClearAnimationFrame := false |}.

(** A window that also offers [clearAnimationFrame]. *)
Definition lenientWindow (now : Z) : Window :=
  {| dateNow := now; frameRequests := []; lastHandle := 0;
     hasClearAnimationFrame := true |}.

(** The ticks of a trace: for each dispatch on one of the two tick
    signals, the signal and the tick index. *)
Fixpoint tickDispatches (tr : list Event) : list (Channel * N) :=
  match tr with
  | [] => []
  | Dispatched ch (Some (_, _, n)) _ :: rest =>
      if lifecycle ch then tickDispatches rest else (ch, n) :: tickDispatches rest
  | _ :: rest => tickDispatches rest
  end.

(** ** The frame pump below the rate cap *)

(** The world once [onFrame] has read the clock. *)
Definition clockRead (w : World) : World :=
  withTicker (fun t => set_frameDeltaTime (_now t - _lastTimeUpdated t)%num t)
    (withTicker (set_now (getTimer w)) w).

(** A ticker capped at 30 ticks per second, started at time 0 in a window
    without [clearAnimationFrame], 16 ms later. *)
Definition cappedAt16 : World :=
  withWindow (setClock 16)
    (snd (constructor (runScript 0) (ofZ 30) NaN false (domWindow 0))).

(** ** resume after dispose *)

(** A running ticker with a subscriber on each signal, to be disposed. *)
Definition subscribedTicker : World :=
  snd (lifetime 1 0
         [Subscribe OnResume (mkListener 1 (fun _ _ => []));
          Subscribe OnPause (mkListener 2 (fun _ _ => []));
          Subscribe OnTick (mkListener 3 (fun _ _ => []));
          Subscribe OnTickOncePerFrame (mkListener 4 (fun _ _ => []))]
         (snd (constructor (runScript 1) NaN NaN false (domWindow 0)))).

(** ** One tick *)

(** The counters after the first three assignments of [update]. *)
Definition tickBump (timePassedMS : number) (w : World) : World :=
  withTicker (set_tickDeltaTime timePassedMS)
    (withTicker (fun t => set_currentTime (_currentTime t + timePassedMS)%num t)
       (withTicker (fun t => set_currentTick (_currentTick t + 1)%N t) w)).

Definition isReturned (c : Completion) : bool :=
  match fst c with Returned => true | _ => false end.

(** The tick dispatch of [update]. *)
Definition tickRound (run : Runner) (timePassedMS : number) (w : World) : Completion :=
  dispatch run OnTick (Some (snapshot (ticker (tickBump timePassedMS w))))
    (tickBump timePassedMS w).

(** ** Re-registration *)

(** The last statement of [onFrame]. *)
Definition reRegister (w : World) : Completion :=
  if _isRunning (ticker w) then animateOnce w else ret w.

(** ** The single simple update *)

(** A default ticker (no rate bound) started at time 0, with a tick
    listener that doubles the time scale, 16 ms later. *)
Definition plainAt16 : World :=
  withWindow (setClock 16)
    (snd (lifetime 1 0
            [Subscribe OnTick (mkListener 1 (fun _ _ => [SetTimeScale (ofZ 2)]))]
            (snd (constructor (runScript 1) NaN NaN false (domWindow 0))))).

(** ** The catch-up burst *)

(** A ticker with a minimum of 100 ticks per second ([maxInterval] is
    10 ms), started at time 0, when the first frame comes 20 ms later. *)
Definition catchingUpAt20 (win : Window) : World :=
  withWindow (setClock 20)
    (snd (constructor (runScript 0) NaN (ofZ 100) false win)).

(** ** Only the catch-up loop can fail to end *)

Definition ends (c : Completion) : Prop := fst c <> Hung.

(** ** The catch-up loop, one iteration at a time *)

(** The loop condition, [now >= lastTimeUpdated + interval]. *)
Definition behind (w : World) : bool :=
  (_now (ticker w) >=? _lastTimeUpdated (ticker w) + _interval (ticker w))%num.

(** Whether the tick about to be dispatched counts as the visual frame's,
    [now <= lastTimeUpdated + maxInterval * 2]. *)
Definition visualFrame (w : World) : bool :=
  (_now (ticker w) <=? _lastTimeUpdated (ticker w) + _maxInterval (ticker w) * ofZ 2)%num.

(** [lastTimeUpdated += interval] *)
Definition advance (w : World) : World :=
  withTicker (fun t =>
    set_lastTimeUpdated (_lastTimeUpdated t + _interval t)%num t) w.

(** A ticker with a minimum of 100 ticks per second ([maxInterval] is
    10 ms), started at time 0 in a window with [clearAnimationFrame],
    when the first frame comes [ms] later. *)
Definition hundredPerSecondAt (ms : Z) : World :=
  withWindow (setClock ms)
    (snd (constructor (runScript 0) NaN (ofZ 100) false (lenientWindow 0))).

(** ** Ticks and the running flag *)

(** The indices of the ticks dispatched while [isRunning] was false. *)
Fixpoint ticksWhilePaused (tr : list Event) : list N :=
  match tr with
  | [] => []
  | Dispatched OnTick (Some (_, _, n)) false :: rest => n :: ticksWhilePaused rest
  | _ :: rest => ticksWhilePaused rest
  end.

(** A call that cannot stop the ticker. *)
Definition staysOn (a : Action) : bool :=
  match a with
  | CallPause | CallDispose => false
  | _ => true
  end.

(** The ticker is running, [x] are the ticks dispatched while it was not,
    and no listener of the two tick signals calls [pause] or [dispose]. *)
Definition steady (x : list N) (w : World) : Prop :=
  _isRunning (ticker w) = true /\
  ticksWhilePaused (trace w) = x /\
  forall func args,
    In func (_onTick (ticker w) ++ _onTickOncePerFrame (ticker w)) ->
    forall obs, forallb staysOn (body func obs args) = true.

(** A ticker with a minimum of 100 ticks per second whose only tick
    listener pauses it when called with tick [n], and the frame that
    comes 30 ms after its start. *)
Definition pausingAt (n : N) : World :=
  withWindow (setClock 30)
    (snd (lifetime 1 0
            [Subscribe OnTick
               (mkListener 1 (fun _ args =>
                  match args with
                  | Some (_, _, m) => if (m =? n)%N then [CallPause] else []
                  | None => []
                  end))]
            (snd (constructor (runScript 1) NaN (ofZ 100) false (lenientWindow 0))))).

(** A listener that assigns the time scale at each tick. *)
Definition scalingListener : Listener :=
  mkListener 1 (fun _ _ => [SetTimeScale (ofZ 2)]).

(** ** What holds through a whole life

    Besides what scripts can reach, the elementary changes made by the
    frame pump and by the operations from outside. *)

Section Pumped.

Variable okOp : Op -> Prop.

Inductive pumps : World -> World -> Prop :=
| pumps_clockRead w : pumps w (clockRead w)
| pumps_interval w :
    pumps w (withTicker (fun t =>
               set_interval (Math_min (_frameDeltaTime t) (_maxInterval t)) t) w)
| pumps_bump timePassedMS w : pumps w (tickBump timePassedMS w)
| pumps_advance w : pumps w (advance w)
| pumps_lastNow w :
    pumps w (withTicker (fun t => set_lastTimeUpdated (_now t) t) w)
| pumps_fired h w : pumps w (withWindow (withoutRequest h) w)
| pumps_clock t w : pumps w (withWindow (setClock t) w)
| pumps_subscribe ch func w :
    okOp (Subscribe ch func) -> pumps w (withTicker (subscribe ch func) w)
| pumps_callback args w : pumps w (log (CallbackInvoked args) w).

End Pumped.

(** ** After dispose *)






(** The running ticker with four subscribers, disposed. *)
Definition disposedTicker : World := snd (dispose (runScript 1) subscribedTicker).



(** *** currentTime *)

(** An assignment of a finite, non-negative time scale, or any call
    that is not an assignment of the time scale. *)
Definition benign (a : Action) : Prop :=
  match a with
  | SetTimeScale v => exists s, v = Fin s /\ 0 <= s
  | _ => True
  end.

Definition benignListener (ch : Channel) (func : Listener) : Prop :=
  forall obs args, Forall benign (body func obs args).

Definition benignOp (op : Op) : Prop :=
  match op with
  | AssignTimeScale v => benign (SetTimeScale v)
  | UpdateOnce callback => forall obs args, Forall benign (callback obs args)
  | Subscribe ch func => benignListener ch func
  | _ => True
  end.

(** The time scale is finite and not negative, [maxInterval] is
    unbounded or positive, and the subscribers keep the time scale so. *)
Definition paced (w : World) : Prop :=
  (exists s, _timeScale (ticker w) = Fin s /\ 0 <= s) /\
  (_maxInterval (ticker w) = NaN \/ _maxInterval (ticker w) = PosInf
   \/ exists M, _maxInterval (ticker w) = Fin M /\ 0 < M) /\
  forall ch func, In func (signal ch (ticker w)) -> benignListener ch func.

(** [currentTime] is finite and at least [c0]. *)
Definition grown (c0 : Q) (w : World) : Prop :=
  exists c, _currentTime (ticker w) = Fin c /\ c0 <= c.

(** The clock has not been set back behind [lastTimeUpdated]. *)
Definition onTime (w : World) : Prop :=
  exists l, _lastTimeUpdated (ticker w) = Fin l /\ l <= inject_Z (dateNow (window w)).

Definition thriving (c0 : Q) (w : World) : Prop := paced w /\ grown c0 w.

(** The interval of the catch-up loop is finite and not negative. *)
Definition stepping (w : World) : Prop :=
  exists i, _interval (ticker w) = Fin i /\ 0 <= i.

(** Every frame callback of [ops] comes when the clock is not behind
    [lastTimeUpdated]. *)
Fixpoint timely (depth fuel : nat) (ops : list Op) (w : World) : Prop :=
  match ops with
  | [] => True
  | op :: rest =>
      match op with
      | Frame h => isPending h w = true -> onTime w
      | StaleFrame => onTime w
      | _ => True
      end /\ timely depth fuel rest (snd (step depth fuel op w))
  end.

(** A default ticker started at time 0. *)
Definition freshTicker : World :=
  snd (constructor (runScript 0) NaN NaN false (lenientWindow 0)).

(** ** The time scale and the ticks *)

(** The interval of the first tick of a pass of the frame pump, if the
    pass dispatches any: [frameDelta] without a lower rate bound,
    [min(frameDelta, maxInterval)] with one. *)
Definition firstInterval (w : World) : option number :=
  let frameDelta := (getTimer w - _lastTimeUpdated (ticker w))%num in
  if isNaN (_minInterval (ticker w))
     || (frameDelta >=? _minInterval (ticker w))%num
  then
    if negb (isNaN (_maxInterval (ticker w))) then
      let interval := Math_min frameDelta (_maxInterval (ticker w)) in
      if (getTimer w >=? _lastTimeUpdated (ticker w) + interval)%num
      then Some interval else None
    else Some frameDelta
  else None.

(** What the listeners of a tick that adds [timePassed] are told:
    the accumulated time and [timePassed], in seconds, and the index of
    the tick. *)
Definition nextTickArgs (timePassed : number) (t : FrameTicker) : TickArgs :=
  (((_currentTime t + timePassed) / ofZ 1000)%num,
   (timePassed / ofZ 1000)%num,
   (_currentTick t + 1)%N).

(** The trace starts with [pre]. *)
Definition startsWith (pre : list Event) (w : World) : Prop :=
  exists evs, trace w = pre ++ evs.

(** Arguments and events with the reported times left out. *)
Definition blind (args : option TickArgs) : option (N) :=
  match args with
  | Some (_, _, n) => Some n
  | None => None
  end.

Inductive Shape : Type :=
| DispatchedShape (ch : Channel) (tick : option N) (running : bool)
| NotifiedShape (ch : Channel) (listener : nat) (tick : option N)
| CallbackShape (tick : N).

Definition shapeOf (e : Event) : Shape :=
  match e with
  | Dispatched ch args r => DispatchedShape ch (blind args) r
  | Notified ch l args => NotifiedShape ch l (blind args)
  | CallbackInvoked (_, _, n) => CallbackShape n
  end.

(** Everything in a world but the time scale, the accumulated and the
    last elapsed time, and the times reported to listeners. *)
Definition visible (w : World) :=
  let t := ticker w in
  (_isRunning t, _currentTick t, (_minFPS t, _maxFPS t),
   (_lastTimeUpdated t, _minInterval t, _maxInterval t),
   (_now t, _frameDeltaTime t, _interval t),
   (_onResume t, _onPause t, _onTick t, _onTickOncePerFrame t),
   _animationFrameHandle t, window w, map shapeOf (trace w)).

(** Two worlds that differ in elapsed times and time scale only. *)
Definition alike (w1 w2 : World) : Prop := visible w1 = visible w2.

(** What a called function can know besides the time scale and the
    elapsed times. *)
Definition unscaled (obs : Observation) :=
  (sees_isRunning obs, sees_currentTick obs, sees_now obs,
   map shapeOf (sees_history obs)).

(** A listener whose calls depend neither on the times it is told nor
    on the time scale. *)
Definition timeBlind (func : Listener) : Prop :=
  forall obs1 obs2 args1 args2,
    unscaled obs1 = unscaled obs2 -> blind args1 = blind args2 ->
    body func obs1 args1 = body func obs2 args2.

Definition blindSubscribers (w : World) : Prop :=
  forall ch func, In func (signal ch (ticker w)) -> timeBlind func.

Definition akin (w1 w2 : World) : Prop := alike w1 w2 /\ blindSubscribers w1.

(** Two completions of the same kind, in worlds that are akin. *)
Definition akinC (c1 c2 : Completion) : Prop :=
  fst c1 = fst c2 /\ akin (snd c1) (snd c2).

(** A runner that takes worlds that are akin to worlds that are akin. *)
Definition respects (run : Runner) : Prop :=
  forall script w1 w2, akin w1 w2 -> akinC (run script w1) (run script w2).

(** A listener that reacts to the time it is told: it pauses and resumes
    the ticker when a tick reports more than 15 ms. *)
Definition impatientListener : Listener :=
  mkListener 1 (fun _ args =>
    match args with
    | Some (_, delta, _) =>
        if (ofZ 15 / ofZ 1000 <? delta)%num then [CallPause; CallResume] else []
    | None => []
    end).

(** ** Double precision

    The numbers above are exact.  How often the catch-up loop runs
    depends on how [lastTimeUpdated + interval] is rounded, so the frame
    pump is given once more with every arithmetic result rounded to
    binary64, as the JavaScript [number] type does.  What a listener can
    know is left as it is: its calls are any function of it, and a
    rounded value is a function of the exact one. *)

(** [2 ^ e] *)
Definition pow2 (e : Z) : Q := 2 ^ e.

(** The exponent [e] of a positive rational: [2 ^ e <= x < 2 ^ (e + 1)]. *)
Definition exponentOf (x : Q) : Z :=
  let e := (Z.log2 (Qnum x) - Z.log2 (Zpos (Qden x)))%Z in
  if Qle_bool (pow2 e) x then e else (e - 1)%Z.

(** The integer nearest to [q], the even one of two that are equally
    near. *)
Definition nearestEven (q : Q) : Z :=
  let f := Qfloor q in
  match Qcompare (q - inject_Z f) (1 # 2) with
  | Lt => f
  | Gt => (f + 1)%Z
  | Eq => if Z.even f then f else (f + 1)%Z
  end.

(** The double nearest to a positive rational: 53 significant bits. *)
Definition nearestDouble (x : Q) : Q :=
  let ulp := pow2 (exponentOf x - 52) in
  Qred (inject_Z (nearestEven (x / ulp)) * ulp).

(** Rounding to binary64: to the nearest double, ties to even.  The
    range of the exponent is not represented (no overflow to an
    infinity, no subnormal numbers). *)
Definition binary64 (x : Q) : Q :=
  match Qnum x with
  | Z0 => 0
  | Zpos _ => nearestDouble x
  | Zneg _ => - nearestDouble (- x)
  end.

(** The relative error of one rounding is at most [2 ^ -53]. *)
Definition epsilon64 : Q := pow2 (-53).

(** The result of an operation, as a double. *)
Definition rounded (x : number) : number :=
  match x with
  | Fin q => Fin (binary64 q)
  | _ => x
  end.

Definition add64 (x y : number) : number := rounded (x + y)%num.
Definition sub64 (x y : number) : number := rounded (x - y)%num.
Definition mul64 (x y : number) : number := rounded (x * y)%num.
Definition div64 (x y : number) : number := rounded (x / y)%num.

(** The snapshot handed to tick callbacks, in doubles. *)
Definition snapshot64 (t : FrameTicker) : TickArgs :=
  (div64 (_currentTime t) (ofZ 1000), div64 (_tickDeltaTime t) (ofZ 1000),
   _currentTick t).

(** The counters after the first three assignments of [update]. *)
Definition tickBump64 (timePassedMS : number) (w : World) : World :=
  withTicker (set_tickDeltaTime timePassedMS)
    (withTicker (fun t => set_currentTime (add64 (_currentTime t) timePassedMS) t)
       (withTicker (fun t => set_currentTick (_currentTick t + 1)%N t) w)).

(** [update], on doubles. *)
Definition update64 (run : Runner) (timePassedMS : number) (newVisualFrame : bool)
    (w : World) : Completion :=
  let w3 := tickBump64 timePassedMS w in
  w4 <- dispatch run OnTick (Some (snapshot64 (ticker w3))) w3 ;;
  if newVisualFrame
  then dispatch run OnTickOncePerFrame (Some (snapshot64 (ticker w4))) w4
  else ret w4.

(** The loop condition, [now >= lastTimeUpdated + interval]. *)
Definition behind64 (w : World) : bool :=
  (_now (ticker w) >=? add64 (_lastTimeUpdated (ticker w)) (_interval (ticker w)))%num.

(** [lastTimeUpdated += interval] *)
Definition advance64 (w : World) : World :=
  withTicker (fun t =>
    set_lastTimeUpdated (add64 (_lastTimeUpdated t) (_interval t)) t) w.

(** The catch-up loop of [onFrame]; [fuel] bounds the iterations, as in
    [catchUp]. *)
Fixpoint catchUp64 (run : Runner) (fuel : nat) (w : World) : Completion :=
  let t := ticker w in
  if behind64 w then
    match fuel with
    | O => (Hung, w)
    | S fuel' =>
        w1 <- update64 run (mul64 (_interval t) (_timeScale t))
                (_now t <=? add64 (_lastTimeUpdated t)
                                  (mul64 (_maxInterval t) (ofZ 2)))%num w ;;
        catchUp64 run fuel' (advance64 w1)
    end
  else ret w.

(** [onFrame], on doubles. *)
Definition onFrame64 (run : Runner) (fuel : nat) (w : World) : Completion :=
  let w1 := withTicker (set_now (getTimer w)) w in
  let w2 := withTicker (fun t =>
              set_frameDeltaTime (sub64 (_now t) (_lastTimeUpdated t)) t) w1 in
  w5 <- (if isNaN (_minInterval (ticker w2))
            || (_frameDeltaTime (ticker w2) >=? _minInterval (ticker w2))%num
         then
           if negb (isNaN (_maxInterval (ticker w2))) then
             let w3 := withTicker (fun t =>
                         set_interval (Math_min (_frameDeltaTime t) (_maxInterval t)) t) w2 in
             catchUp64 run fuel w3
           else
             w3 <- update64 run
                     (mul64 (_frameDeltaTime (ticker w2)) (_timeScale (ticker w2))) true w2 ;;
             ret (withTicker (fun t => set_lastTimeUpdated (_now t) t) w3)
         else ret w2) ;;
  if _isRunning (ticker w5) then animateOnce w5 else ret w5.

(** The constructor, on doubles. *)
Definition newFrameTicker64 (maxFPS minFPS : number) : FrameTicker :=
  {| _isRunning := false; _timeScale := ofZ 1; _currentTick := 0%N;
     _currentTime := ofZ 0; _tickDeltaTime := ofZ 0;
     _minFPS := minFPS; _maxFPS := maxFPS;
     _lastTimeUpdated := NaN;
     _minInterval := if isNaN maxFPS then NaN else div64 (ofZ 1000) maxFPS;
     _maxInterval := if isNaN minFPS then NaN else div64 (ofZ 1000) minFPS;
     _now := NaN; _frameDeltaTime := NaN; _interval := NaN;
     _onResume := []; _onPause := []; _onTick := []; _onTickOncePerFrame := [];
     _animationFrameHandle := None |}.

Definition constructor64 (run : Runner) (maxFPS minFPS : number) (paused : bool)
    (win : Window) : Completion :=
  let w := {| ticker := newFrameTicker64 maxFPS minFPS; window := win; trace := [] |} in
  if negb paused then resume run w else ret w.

(** A ticker with a minimum of [minFPS] ticks per second, started at
    time [start] in a window with [clearAnimationFrame], when the first
    frame comes [late] ms later. *)
Definition lateFrame64 (minFPS start late : Z) : World :=
  withWindow (setClock (start + late))
    (snd (constructor64 (runScript 0) NaN (ofZ minFPS) false (lenientWindow start))).

(** ** The frame requests of a ticker *)

(** The window holds no frame request, or the single one whose handle the
    ticker holds; handles are positive. *)
Definition tidy (w : World) : Prop :=
  (0 <= lastHandle (window w))%Z /\
  (frameRequests (window w) = [] \/
   exists h, (0 < h)%Z /\ frameRequests (window w) = [h]
             /\ _animationFrameHandle (ticker w) = Some h).

(** What [tidy] depends on. *)
Definition schedule (w : World) :=
  (_animationFrameHandle (ticker w), frameRequests (window w), lastHandle (window w)).

(** A running ticker, in a window with [clearAnimationFrame], whose
    pause listener resumes it. *)
Definition resumedOnPause : World :=
  withTicker (subscribe OnPause (mkListener 1 (fun _ _ => [CallResume])))
    (snd (constructor (runScript 0) NaN NaN false (lenientWindow 0))).

(** A paused ticker, in a window without [clearAnimationFrame], whose
    resume listener pauses it. *)
Definition pausedOnResume : World :=
  withTicker (subscribe OnResume (mkListener 1 (fun _ _ => [CallPause])))
    (snd (constructor (runScript 0) NaN NaN true (domWindow 0))).

(** ** Ticks over a life *)

(** [w'] comes after [w] without a tick: the counters are those of [w]
    and nothing was dispatched on the two tick signals. *)
Definition tickless (w w' : World) : Prop :=
  _currentTick (ticker w') = _currentTick (ticker w) /\
  _currentTime (ticker w') = _currentTime (ticker w) /\
  _tickDeltaTime (ticker w') = _tickDeltaTime (ticker w) /\
  exists evs, trace w' = trace w ++ evs /\ tickDispatches evs = [].

(** An operation that is not a frame callback. *)
Definition notFrame (op : Op) : Prop :=
  match op with
  | Frame _ | StaleFrame => False
  | _ => True
  end.

(** Reads a list of tick dispatches from tick [last] on: every dispatch
    on the tick signal carries the next index, every dispatch on the
    once-per-frame signal the index of the tick before it.  Gives the
    last index. *)
Fixpoint numbered (last : N) (l : list (Channel * N)) : option N :=
  match l with
  | [] => Some last
  | (OnTick, n) :: rest =>
      if (n =? last + 1)%N then numbered n rest else None
  | (OnTickOncePerFrame, n) :: rest =>
      if (n =? last)%N then numbered last rest else None
  | _ :: _ => None
  end.

(** [w'] comes after [w] with the ticks in between numbered in order. *)
Definition inOrder (w w' : World) : Prop :=
  exists evs, trace w' = trace w ++ evs /\
    numbered (_currentTick (ticker w)) (tickDispatches evs)
      = Some (_currentTick (ticker w')).

(** ** A paused ticker *)

(** The ticker is paused and no frame is requested. *)
Definition dormant (w : World) : Prop :=
  _isRunning (ticker w) = false /\ frameRequests (window w) = [].

Definition noResume (a : Action) : bool :=
  match a with
  | CallResume => false
  | _ => true
  end.

(** An operation that is neither [resume()], nor a callback that calls
    it, nor a frame callback that was never requested. *)
Definition letsSleep (op : Op) : Prop :=
  match op with
  | Resume | StaleFrame => False
  | UpdateOnce callback => forall obs args, forallb noResume (callback obs args) = true
  | _ => True
  end.

Definition isCallback (e : Event) : bool :=
  match e with
  | CallbackInvoked _ => true
  | _ => false
  end.

(** [w'] comes after [w], dormant, with the counters of [w] and no
    dispatch and no notification in between. *)
Definition asleep (w w' : World) : Prop :=
  dormant w' /\
  _currentTick (ticker w') = _currentTick (ticker w) /\
  _currentTime (ticker w') = _currentTime (ticker w) /\
  _tickDeltaTime (ticker w') = _tickDeltaTime (ticker w) /\
  exists evs, trace w' = trace w ++ evs /\ forallb isCallback evs = true.

(** A ticker constructed paused, with a tick listener. *)
Definition startedPaused : World :=
  withTicker (subscribe OnTick (mkListener 1 (fun _ _ => [CallResume])))
    (snd (constructor (runScript 0) NaN NaN true (domWindow 0))).

(** ** Frames in a window without clearAnimationFrame *)


(** ** A rate cap of zero *)

(** [w'] comes after [w] without a tick, with the same [minInterval],
    and with [lastTimeUpdated] untouched or read from the clock. *)
Definition idle (w w' : World) : Prop :=
  tickless w w' /\
  _minInterval (ticker w') = _minInterval (ticker w) /\
  (_lastTimeUpdated (ticker w') = _lastTimeUpdated (ticker w)
   \/ exists z, _lastTimeUpdated (ticker w') = ofZ z).

(** No frame has ticked since [w0], [minInterval] is infinite, and
    [lastTimeUpdated] is not minus infinity. *)
Definition frozen (w0 w : World) : Prop :=
  tickless w0 w /\
  _minInterval (ticker w) = PosInf /\
  _lastTimeUpdated (ticker w) <> NegInf.

(** A ticker with [maxFPS] 0, with a tick listener, 16 ms after its
    start. *)
Definition cappedAtZero : World :=
  withWindow (setClock 16)
    (withTicker (subscribe OnTick (mkListener 1 (fun _ _ => [CallPause; CallResume])))
       (snd (constructor (runScript 0) (ofZ 0) NaN false (lenientWindow 0)))).

(** ** Not a number *)

(** A default ticker whose time scale is [NaN], after its first frame. *)
Definition tickedWithNaN : World :=
  snd (lifetime 0 0 [AssignTimeScale NaN; SetClock 16; Frame 1] freshTicker).

(** * Properties *)

(** ** Sequencing *)

Lemma bind_ret (c : Completion) : bind c ret = c.
Proof. destruct c as [[] w]; reflexivity. Qed.

Lemma bind_world (P : World -> Prop) (c : Completion) (k : World -> Completion) :
  P (snd c) -> (forall w, P w -> P (snd (k w))) -> P (snd (bind c k)).
Proof. destruct c as [[] w]; simpl; auto. Qed.

Lemma bind_returned (c : Completion) (k : World -> Completion) (w : World) :
  bind c k = (Returned, w) ->
  exists w1, c = (Returned, w1) /\ k w1 = (Returned, w).
Proof. destruct c as [[] w1]; simpl; intros H; try discriminate; eauto. Qed.

(** ** What a listener can reach *)

Section Reach.

Variable okAction : Action -> Prop.
Variable mayDispatch : Channel -> option TickArgs -> Prop.
Variable mayNotify : Channel -> option TickArgs -> Prop.
Variable allowed : Channel -> Listener -> Prop.

Variable P : World -> Prop.

Hypothesis P_stable : forall w w',
  reach okAction mayDispatch mayNotify allowed w w' -> P w -> P w'.

Hypothesis P_allows : forall w ch func,
  P w -> In func (signal ch (ticker w)) -> allowed ch func.

Hypothesis allowed_ok : forall ch func obs args,
  allowed ch func -> Forall okAction (body func obs args).

Lemma callEach_keeps run ch args functions w :
  keeps okAction P run -> mayNotify ch args -> Forall (allowed ch) functions ->
  P w -> P (snd (callEach run ch args functions w)).
Proof.
  intros Hrun Hch Hall. revert w.
  induction Hall as [|func rest Hf _ IH]; intros w Hw; simpl; trivial.
  apply bind_world; [|exact IH].
  apply Hrun; [now apply allowed_ok with ch|].
  eapply P_stable; [|exact Hw].
  now apply reach_notified.
Qed.

Lemma dispatch_keeps run ch args w :
  keeps okAction P run -> mayDispatch ch args -> mayNotify ch args ->
  P w -> P (snd (dispatch run ch args w)).
Proof.
  intros Hrun Hch Hch' Hw. unfold dispatch.
  apply callEach_keeps; trivial.
  - apply Forall_forall. intros func Hin. eapply P_allows; eauto.
  - eapply P_stable; [|exact Hw]. now apply reach_dispatched.
Qed.

Lemma animateOnce_keeps w : P w -> P (snd (animateOnce w)).
Proof.
  intros Hw. unfold animateOnce.
  apply bind_world.
  - destruct (_animationFrameHandle (ticker w)) as [h|]; simpl; trivial.
    destruct (negb (h =? 0)%Z); simpl; trivial.
    unfold clearAnimationFrame.
    destruct (hasClearAnimationFrame (window w)); simpl; trivial.
    eapply P_stable; [apply reach_cancel|exact Hw].
  - intros w1 Hw1.
    change (P (withTicker
                 (set_animationFrameHandle (Some (fst (requestAnimationFrame w1))))
                 (snd (requestAnimationFrame w1)))).
    eapply P_stable; [apply reach_handle|].
    eapply P_stable; [apply reach_request|exact Hw1].
Qed.

Hypothesis lifecycle_dispatches : forall ch, lifecycle ch = true -> mayDispatch ch None.
Hypothesis lifecycle_notifies : forall ch, lifecycle ch = true -> mayNotify ch None.

Lemma resume_keeps run w : keeps okAction P run -> P w -> P (snd (resume run w)).
Proof.
  intros Hrun Hw. unfold resume.
  destruct (negb (_isRunning (ticker w))); simpl; trivial.
  apply bind_world; [|apply animateOnce_keeps].
  apply dispatch_keeps; trivial;
      [now apply lifecycle_dispatches|now apply lifecycle_notifies|].
  eapply P_stable; [apply reach_last|].
  eapply P_stable; [apply reach_running|exact Hw].
Qed.

Lemma pause_keeps run w : keeps okAction P run -> P w -> P (snd (pause run w)).
Proof.
  intros Hrun Hw. unfold pause.
  apply bind_world.
  - destruct (_isRunning (ticker w)); simpl; trivial.
    apply dispatch_keeps; trivial;
      [now apply lifecycle_dispatches|now apply lifecycle_notifies|].
    eapply P_stable; [apply reach_running|exact Hw].
  - intros w1 Hw1.
    destruct (_animationFrameHandle (ticker w1)) as [h|]; simpl; trivial.
    destruct (negb (h =? 0)%Z); simpl; trivial.
    eapply P_stable; [apply reach_handle|].
    eapply P_stable; [apply reach_cancel|exact Hw1].
Qed.

Lemma dispose_keeps run w : keeps okAction P run -> P w -> P (snd (dispose run w)).
Proof.
  intros Hrun Hw. unfold dispose.
  apply bind_world; [now apply pause_keeps|].
  intros w1 Hw1. simpl.
  eapply P_stable; [apply reach_clear_tick|].
  eapply P_stable; [apply reach_clear_pause|].
  eapply P_stable; [apply reach_clear_resume|exact Hw1].
Qed.

Lemma set_timeScale_value_keeps v w :
  okAction (SetTimeScale v) -> P w -> P (set_timeScale_value v w).
Proof.
  intros Hv Hw. unfold set_timeScale_value.
  destruct (negb (strictEq (_timeScale (ticker w)) v)); trivial.
  eapply P_stable; [now apply reach_scale|exact Hw].
Qed.

Lemma perform_keeps run a w :
  keeps okAction P run -> okAction a -> P w -> P (snd (perform run a w)).
Proof.
  intros Hrun Ha Hw. destruct a; simpl.
  - now apply resume_keeps.
  - now apply pause_keeps.
  - now apply dispose_keeps.
  - now apply set_timeScale_value_keeps.
  - eapply P_stable; [apply reach_elapse|exact Hw].
Qed.

Lemma runScript_keeps depth : keeps okAction P (runScript depth).
Proof.
  induction depth as [|d IH]; intros script.
  - intros w Hs Hw. destruct script; simpl; trivial.
  - induction script as [|a rest IHs]; intros w Hs Hw; simpl; trivial.
    inversion Hs; subst.
    apply bind_world; [|intros w1 Hw1; now apply IHs].
    now apply perform_keeps.
Qed.

End Reach.

Lemma Forall_anyAction (script : Script) : Forall anyAction script.
Proof. apply Forall_forall. intros a _. exact I. Qed.

(** ** What no listener can touch *)

Lemma after_refl ev w : after ev w w.
Proof.
  repeat split; [lia|now left|]. exists []. now rewrite app_nil_r.
Qed.

Lemma after_trans ev w1 w2 w3 : after ev w1 w2 -> after ev w2 w3 -> after ev w1 w3.
Proof.
  intros (Hp & Hc & Hl & evs & Ht & He) (Hp' & Hc' & Hl' & evs' & Ht' & He').
  repeat split; [congruence|lia| |].
  - destruct Hl' as [Hl'|(z & Hz & Hb)].
    + unfold lastMoved. rewrite Hl'. destruct Hl as [Hl|(z & Hz & Hb)]; [now left|].
      right. exists z. split; [trivial|lia].
    + right. exists z. split; [trivial|lia].
  - exists (evs ++ evs'). rewrite Ht', Ht, app_assoc, forallb_app, He, He'. now split.
Qed.

Lemma quiet_calm w w' : quiet w w' -> calm w w'.
Proof.
  intros (Hp & Hc & Hl & evs & Ht & He). repeat split; trivial.
  exists evs. split; trivial.
  rewrite forallb_forall in *. intros e He'. specialize (He e He').
  destruct e; simpl in *; trivial.
Qed.

Lemma after_log ev e w : ev e = true -> after ev w (log e w).
Proof.
  intros He. repeat split; simpl; [lia|now left|].
  exists [e]. split; [reflexivity|]. simpl. now rewrite He.
Qed.

Lemma reach_quiet w w' :
  reach anyAction lifecycleDispatch lifecycleDispatch anyListener w w' -> quiet w w'.
Proof.
  intros H. destruct H; try apply after_refl;
    try (repeat split; simpl; try lia; try (now left); exists []; now rewrite app_nil_r).
  - repeat split; simpl; [lia| |exists []; now rewrite app_nil_r].
    right. exists (dateNow (window w)). split; [reflexivity|simpl; lia].
  - destruct H as [H ->]. now apply after_log.
  - destruct H as [H ->]. now apply after_log.
Qed.

Lemma runScript_quiet depth script w : quiet w (snd (runScript depth script w)).
Proof.
  apply (runScript_keeps anyAction lifecycleDispatch lifecycleDispatch anyListener
           (quiet w)).
  - intros w1 w2 Hr Hq. eapply after_trans; [exact Hq|]. eapply reach_quiet, Hr.
  - intros; exact I.
  - intros; apply Forall_anyAction.
  - intros ch Hch. now split.
  - intros ch Hch. now split.
  - apply Forall_anyAction.
  - apply after_refl.
Qed.

(** Calling the subscribers of a signal, whichever it is. *)
Lemma callEach_calm depth ch args functions w :
  calm w (snd (callEach (runScript depth) ch args functions w)).
Proof.
  revert w. induction functions as [|func rest IH]; intros w; simpl.
  - apply after_refl.
  - apply (bind_world (calm w)).
    + eapply after_trans; [|apply quiet_calm, runScript_quiet].
      now apply after_log.
    + intros w1 Hw1. eapply after_trans; [exact Hw1|apply IH].
Qed.

(** ** updateOnce *)

(** C9. [updateOnce(callback)] is one call of [callback], made at once,
    with [(currentTimeSeconds, tickDeltaTimeSeconds, currentTick)]: what
    it does and how it ends is what running once the calls that
    [callback] makes for these three values does, whatever they are and
    however they are run.  So a callback that assigns the two times it is
    given to the time scale and then takes as many milliseconds as the
    tick it is given leaves exactly that behind, and a callback that
    makes no call leaves the world as it was: [updateOnce] itself
    dispatches nothing.  Whatever the callback does, [currentTick],
    [currentTime] and [tickDeltaTime] are left as they were and nothing is
    dispatched on the tick signals. *)
Theorem updateOnce_calls_back_once (run : Runner) (depth : nat)
    (callback : Observation -> TickArgs -> Script)
    (w : World) :
  let t := ticker w in
  let seconds := (_currentTime t / ofZ 1000)%num in
  let delta := (_tickDeltaTime t / ofZ 1000)%num in
  let args := (seconds, delta, _currentTick t) in
  let called := log (CallbackInvoked args) w in
  updateOnce run callback w = run (callback (observe w) args) called /\
  updateOnce (runScript (S depth))
    (fun _ a => [SetTimeScale (fst (fst a)); SetTimeScale (snd (fst a)); Elapse (snd a)]) w
    = (Returned,
       elapse (_currentTick t)
         (set_timeScale_value delta (set_timeScale_value seconds called))) /\
  updateOnce (runScript depth) (fun _ _ => []) w = (Returned, called) /\
  let w' := snd (updateOnce (runScript depth) callback w) in
  _currentTick (ticker w') = _currentTick t /\
  _currentTime (ticker w') = _currentTime t /\
  _tickDeltaTime (ticker w') = _tickDeltaTime t /\
  exists evs, trace w' = trace called ++ evs
              /\ forallb lifecycleEvent evs = true.
Proof.
  intros t seconds delta args called.
  split; [reflexivity|]. split; [reflexivity|].
  split; [now destruct depth|].
  intros w'. unfold w', updateOnce.
  change (snapshot (ticker w)) with args. fold called.
  destruct (runScript_quiet depth (callback (observe w) args) called)
    as (Hp & _ & _ & evs & Ht & He).
  unfold pumpState in Hp. simpl in Hp. injection Hp as H1 H2 H3 _ _ _ _ _ _ _ _ _.
  repeat split; trivial.
  exists evs. now split.
Qed.

(** ** Comparisons *)

Lemma num_lt_not_ge (x y : number) : (x <? y)%num = true -> (x >=? y)%num = false.
Proof.
  unfold num_ge. destruct x, y; simpl; trivial; try discriminate.
  now destruct (Qle_bool q0 q).
Qed.

(** ** The frame pump below the rate cap *)

(** A frame that comes sooner than [minInterval] after the last update
    dispatches nothing and goes straight to the re-registration. *)
Lemma onFrame_below_minInterval (run : Runner) (fuel : nat) (w : World) :
  isNaN (_minInterval (ticker w)) = false ->
  (getTimer w - _lastTimeUpdated (ticker w) <? _minInterval (ticker w))%num = true ->
  onFrame run fuel w
    = if _isRunning (ticker w) then animateOnce (clockRead w) else ret (clockRead w).
Proof.
  intros Hmin Hlt. unfold onFrame. fold (clockRead w).
  replace (isNaN (_minInterval (ticker (clockRead w)))) with false by (symmetry; exact Hmin).
  replace (_frameDeltaTime (ticker (clockRead w)) >=? _minInterval (ticker (clockRead w)))%num
    with false by (symmetry; apply num_lt_not_ge; exact Hlt).
  reflexivity.
Qed.

(** Neither reading the clock nor the re-registration dispatches a tick
    or moves the counters. *)
Lemma onFrame_below_minInterval_state (run : Runner) (fuel : nat) (w : World) :
  isNaN (_minInterval (ticker w)) = false ->
  (getTimer w - _lastTimeUpdated (ticker w) <? _minInterval (ticker w))%num = true ->
  let w' := snd (onFrame run fuel w) in
  trace w' = trace w /\
  _currentTick (ticker w') = _currentTick (ticker w) /\
  _currentTime (ticker w') = _currentTime (ticker w) /\
  _tickDeltaTime (ticker w') = _tickDeltaTime (ticker w) /\
  _lastTimeUpdated (ticker w') = _lastTimeUpdated (ticker w).
Proof.
  intros Hmin Hlt. simpl. rewrite onFrame_below_minInterval by assumption.
  destruct (_isRunning (ticker w)); [|simpl; repeat split].
  unfold animateOnce.
  destruct (_animationFrameHandle (ticker (clockRead w))) as [h|] eqn:Hh; simpl.
  - destruct (negb (h =? 0)%Z); simpl.
    + unfold clearAnimationFrame.
      destruct (hasClearAnimationFrame (window (clockRead w))); simpl; repeat split.
    + repeat split.
  - repeat split.
Qed.

(** Where the window has [clearAnimationFrame], or no handle is held, a
    running ticker registers for the next frame. *)
Lemma onFrame_below_minInterval_registers (run : Runner) (fuel : nat) (w : World) :
  isNaN (_minInterval (ticker w)) = false ->
  (getTimer w - _lastTimeUpdated (ticker w) <? _minInterval (ticker w))%num = true ->
  _isRunning (ticker w) = true ->
  hasClearAnimationFrame (window w) = true
    \/ truthy (_animationFrameHandle (ticker w)) = false ->
  let c := onFrame run fuel w in
  let h := (lastHandle (window w) + 1)%Z in
  fst c = Returned /\
  In h (frameRequests (window (snd c))) /\
  _animationFrameHandle (ticker (snd c)) = Some h.
Proof.
  intros Hmin Hlt Hrun Hclr. simpl. rewrite onFrame_below_minInterval by assumption.
  rewrite Hrun. unfold animateOnce.
  destruct (_animationFrameHandle (ticker (clockRead w))) as [h|] eqn:Hh; simpl.
  - change (_animationFrameHandle (ticker w) = Some h) in Hh. rewrite Hh in Hclr.
    simpl in Hclr. destruct (negb (h =? 0)%Z) eqn:Hz; simpl.
    + unfold clearAnimationFrame. simpl.
      destruct Hclr as [Hclr|Hclr]; [|discriminate]. rewrite Hclr. simpl.
      repeat split. apply in_or_app. right. now left.
    + repeat split. apply in_or_app. right. now left.
  - repeat split. apply in_or_app. right. now left.
Qed.

(** Where the window has no [clearAnimationFrame] and a handle is held,
    as it is when a frame callback is served, the re-registration throws
    before it has registered anything. *)
Lemma onFrame_below_minInterval_throws (run : Runner) (fuel : nat) (w : World) (h : Z) :
  isNaN (_minInterval (ticker w)) = false ->
  (getTimer w - _lastTimeUpdated (ticker w) <? _minInterval (ticker w))%num = true ->
  _isRunning (ticker w) = true ->
  _animationFrameHandle (ticker w) = Some h -> h <> 0%Z ->
  hasClearAnimationFrame (window w) = false ->
  onFrame run fuel w = (Threw TypeError, clockRead w).
Proof.
  intros Hmin Hlt Hrun Hh Hz Hclr. rewrite onFrame_below_minInterval by assumption.
  rewrite Hrun. unfold animateOnce.
  change (_animationFrameHandle (ticker (clockRead w)))
    with (_animationFrameHandle (ticker w)).
  rewrite Hh. simpl truthy.
  destruct (h =? 0)%Z eqn:E; [apply Z.eqb_eq in E; contradiction|].
  simpl. unfold clearAnimationFrame.
  change (window (clockRead w)) with (window w). now rewrite Hclr.
Qed.

(** C5. The frame is skipped and nothing changes, but the running ticker
    is not registered for the next frame: with the handle of the frame
    being served still held, [animateOnce] calls
    [window.clearAnimationFrame], which the window does not have, and the
    [TypeError] comes before [requestAnimationFrame]. *)
Theorem skipped_frame_is_not_registered :
  let w := cappedAt16 in
  isNaN (_minInterval (ticker w)) = false /\
  (getTimer w - _lastTimeUpdated (ticker w) <? _minInterval (ticker w))%num = true /\
  _isRunning (ticker w) = true /\
  isPending 1 w = true /\
  exists w', step 0 0 (Frame 1) w = (Threw TypeError, w') /\
             _isRunning (ticker w') = true /\
             frameRequests (window w') = [] /\
             trace w' = trace w.
Proof.
  vm_compute. repeat split. eexists. repeat split.
Qed.

(** ** resume after dispose *)

Lemma pause_returned (run : Runner) (w w' : World) :
  pause run w = (Returned, w') -> truthy (_animationFrameHandle (ticker w')) = false.
Proof.
  unfold pause. intros H. apply bind_returned in H as (w1 & _ & H).
  destruct (_animationFrameHandle (ticker w1)) as [h|] eqn:Hh.
  - simpl in H. destruct (negb (h =? 0)%Z) eqn:Hz; injection H as <-; simpl; trivial.
    now rewrite Hh; simpl.
  - injection H as <-. now rewrite Hh.
Qed.

(** What [dispose] leaves behind when it returns. *)
Lemma dispose_returned (run : Runner) (w w' : World) :
  dispose run w = (Returned, w') ->
  _onResume (ticker w') = [] /\ _onPause (ticker w') = [] /\ _onTick (ticker w') = [] /\
  truthy (_animationFrameHandle (ticker w')) = false.
Proof.
  unfold dispose. intros H. apply bind_returned in H as (w1 & Hp & H).
  injection H as <-. simpl. repeat split.
  eapply pause_returned, Hp.
Qed.

(** C10. [resume()] on a disposed instance is not guarded: it sets
    [isRunning], takes the current time as [lastTimeUpdated], dispatches
    on the resume signal, which has no subscriber left, and registers for
    the next visual frame, as on a paused instance. *)
Theorem resume_after_dispose (run run' : Runner) (w w' : World) :
  dispose run w = (Returned, w') ->
  _isRunning (ticker w') = false ->
  exists w'',
    resume run' w' = (Returned, w'') /\
    _isRunning (ticker w'') = true /\
    _lastTimeUpdated (ticker w'') = getTimer w' /\
    trace w'' = trace w' ++ [Dispatched OnResume None true] /\
    frameRequests (window w'')
      = frameRequests (window w') ++ [(lastHandle (window w') + 1)%Z] /\
    _animationFrameHandle (ticker w'') = Some (lastHandle (window w') + 1)%Z.
Proof.
  intros Hd Hrun. apply dispose_returned in Hd as (Hr & _ & _ & Hh).
  unfold resume, dispatch. rewrite Hrun. simpl. rewrite Hr. simpl.
  unfold animateOnce. simpl.
  destruct (_animationFrameHandle (ticker w')) as [h|] eqn:Hhd; simpl.
  - simpl in Hh. rewrite Hh. simpl. eexists. repeat split.
  - eexists. repeat split.
Qed.

Lemma resume_after_dispose_witness :
  exists w', dispose (runScript 1) subscribedTicker = (Returned, w') /\
    _isRunning (ticker w') = false /\
    exists w'', resume (runScript 1) w' = (Returned, w'') /\
      _isRunning (ticker w'') = true /\
      _lastTimeUpdated (ticker w'') = getTimer w' /\
      trace w'' = trace w' ++ [Dispatched OnResume None true] /\
      frameRequests (window w'')
        = frameRequests (window w') ++ [(lastHandle (window w') + 1)%Z] /\
      _animationFrameHandle (ticker w'') = Some (lastHandle (window w') + 1)%Z.
Proof.
  eexists. split; [vm_compute; reflexivity|]. split; [reflexivity|].
  apply (resume_after_dispose (runScript 1) (runScript 1) subscribedTicker);
    reflexivity.
Defined.

(** ** One tick *)

Lemma tickDispatches_app (tr1 tr2 : list Event) :
  tickDispatches (tr1 ++ tr2) = tickDispatches tr1 ++ tickDispatches tr2.
Proof.
  induction tr1 as [|e tr1 IH]; simpl; trivial.
  destruct e as [ch [[[s d] n]|] r| |]; trivial.
  destruct (lifecycle ch); simpl; now rewrite IH.
Qed.

Lemma tickDispatches_calm (evs : list Event) :
  forallb calmEvent evs = true -> tickDispatches evs = [].
Proof.
  induction evs as [|e evs IH]; simpl; trivial.
  intros H. apply andb_true_iff in H as [He H].
  destruct e as [ch [[[s d] n]|] r| |]; auto.
  simpl in He. rewrite He. auto.
Qed.

(** A dispatch on any signal: one [Dispatched] event, then what the
    subscribers cause. *)
Lemma dispatch_effect (depth : nat) (ch : Channel) (args : option TickArgs) (w : World) :
  let w' := snd (dispatch (runScript depth) ch args w) in
  pumpState w' = pumpState w /\
  (dateNow (window w) <= dateNow (window w'))%Z /\
  lastMoved w w' /\
  exists evs, trace w' = trace w ++ Dispatched ch args (_isRunning (ticker w)) :: evs
              /\ forallb calmEvent evs = true.
Proof.
  unfold dispatch.
  destruct (callEach_calm depth ch args (signal ch (ticker w))
              (log (Dispatched ch args (_isRunning (ticker w))) w))
    as (Hp & Hc & Hl & evs & Ht & He).
  repeat split; trivial.
  exists evs. split; trivial. rewrite Ht. simpl. now rewrite <- app_assoc.
Qed.

Lemma lastMoved_trans w1 w2 w3 :
  (dateNow (window w1) <= dateNow (window w2))%Z ->
  (dateNow (window w2) <= dateNow (window w3))%Z ->
  lastMoved w1 w2 -> lastMoved w2 w3 -> lastMoved w1 w3.
Proof.
  intros Hc Hc' Hl Hl'. destruct Hl' as [Hl'|(z & Hz & Hb)].
  - unfold lastMoved. rewrite Hl'. destruct Hl as [Hl|(z & Hz & Hb)]; [now left|].
    right. exists z. split; [trivial|lia].
  - right. exists z. split; [trivial|lia].
Qed.

(** One call of [update]: the counters move once, the tick signal is
    dispatched once, and the once-per-frame signal once more when it is
    asked for and the tick listeners have returned. *)
Lemma update_effect (depth : nat) (timePassedMS : number) (flag : bool) (w : World) :
  let c := update (runScript depth) timePassedMS flag w in
  let n := (_currentTick (ticker w) + 1)%N in
  pumpState (snd c) = pumpState (tickBump timePassedMS w) /\
  (dateNow (window w) <= dateNow (window (snd c)))%Z /\
  lastMoved w (snd c) /\
  exists evs,
    trace (snd c) = trace w ++ evs /\
    tickDispatches evs
      = (OnTick, n)
        :: (if flag && isReturned (tickRound (runScript depth) timePassedMS w)
            then [(OnTickOncePerFrame, n)] else []).
Proof.
  intros c n. subst c.
  change (update (runScript depth) timePassedMS flag w)
    with (bind (tickRound (runScript depth) timePassedMS w)
            (fun w4 => if flag
                       then dispatch (runScript depth) OnTickOncePerFrame
                              (Some (snapshot (ticker w4))) w4
                       else ret w4)).
  destruct (dispatch_effect depth OnTick
              (Some (snapshot (ticker (tickBump timePassedMS w))))
              (tickBump timePassedMS w)) as (Hp & Hc & Hl & evs & Ht & He).
  fold (tickRound (runScript depth) timePassedMS w) in Hp, Hc, Hl, Ht.
  change (lastMoved w (snd (tickRound (runScript depth) timePassedMS w))) in Hl.
  change (dateNow (window w)
          <= dateNow (window (snd (tickRound (runScript depth) timePassedMS w))))%Z in Hc.
  change (trace (tickBump timePassedMS w)) with (trace w) in Ht.
  unfold isReturned.
  destruct (tickRound (runScript depth) timePassedMS w) as [o w4].
  cbn [snd fst] in Hp, Hc, Hl, Ht.
  assert (Hfirst : tickDispatches
                     (Dispatched OnTick
                        (Some (snapshot (ticker (tickBump timePassedMS w))))
                        (_isRunning (ticker (tickBump timePassedMS w))) :: evs)
                   = [(OnTick, n)]).
  { simpl. now rewrite (tickDispatches_calm evs He). }
  assert (Hstop : pumpState w4 = pumpState (tickBump timePassedMS w) /\
            (dateNow (window w) <= dateNow (window w4))%Z /\
            lastMoved w w4 /\
            exists evs0, trace w4 = trace w ++ evs0 /\
              tickDispatches evs0 = [(OnTick, n)]).
  { repeat split; trivial. eexists. split; [exact Ht|exact Hfirst]. }
  destruct o; simpl; try (rewrite andb_false_r; exact Hstop).
  destruct flag; simpl; [|exact Hstop].
  destruct (dispatch_effect depth OnTickOncePerFrame (Some (snapshot (ticker w4))) w4)
    as (Hp' & Hc' & Hl' & evs' & Ht' & He').
  repeat split.
  - congruence.
  - lia.
  - now apply lastMoved_trans with w4.
  - eexists. split.
    + rewrite Ht', Ht. rewrite <- app_assoc. reflexivity.
    + rewrite tickDispatches_app, Hfirst. simpl.
      rewrite (tickDispatches_calm evs' He').
      assert (Hn : _currentTick (ticker w4) = n).
      { unfold pumpState in Hp. simpl in Hp. now injection Hp. }
      unfold currentTick. now rewrite Hn.
Qed.

(** ** Re-registration *)

(** [animateOnce] touches the handle and the window's registrations only. *)
Lemma animateOnce_effect (w : World) :
  let w' := snd (animateOnce w) in
  trace w' = trace w /\
  dateNow (window w') = dateNow (window w) /\
  pumpState w' = pumpState w /\
  _isRunning (ticker w') = _isRunning (ticker w) /\
  _timeScale (ticker w') = _timeScale (ticker w) /\
  _lastTimeUpdated (ticker w') = _lastTimeUpdated (ticker w) /\
  (forall ch, signal ch (ticker w') = signal ch (ticker w)).
Proof.
  unfold animateOnce.
  destruct (_animationFrameHandle (ticker w)) as [h|]; simpl.
  - destruct (negb (h =? 0)%Z); simpl.
    + unfold clearAnimationFrame.
      destruct (hasClearAnimationFrame (window w)); simpl;
        repeat split; intros []; reflexivity.
    + repeat split; intros []; reflexivity.
  - repeat split; intros []; reflexivity.
Qed.

Lemma reRegister_effect (w : World) :
  let w' := snd (reRegister w) in
  trace w' = trace w /\
  dateNow (window w') = dateNow (window w) /\
  pumpState w' = pumpState w /\
  _isRunning (ticker w') = _isRunning (ticker w) /\
  _timeScale (ticker w') = _timeScale (ticker w) /\
  _lastTimeUpdated (ticker w') = _lastTimeUpdated (ticker w) /\
  (forall ch, signal ch (ticker w') = signal ch (ticker w)).
Proof.
  pose proof (animateOnce_effect w) as H. unfold reRegister.
  destruct (_isRunning (ticker w)) eqn:Hr; [exact H|].
  simpl. repeat split. exact Hr.
Qed.

(** ** The single simple update *)

Lemma update_returned_tickRound run timePassedMS flag w :
  isReturned (update run timePassedMS flag w) = true ->
  isReturned (tickRound run timePassedMS w) = true.
Proof.
  unfold update. fold (tickBump timePassedMS w).
  fold (tickRound run timePassedMS w).
  unfold isReturned.
  destruct (tickRound run timePassedMS w) as [[] w4]; simpl; trivial.
Qed.

Lemma pumpState_eq (w1 w2 : World) :
  pumpState w1 = pumpState w2 ->
  _currentTick (ticker w1) = _currentTick (ticker w2) /\
  _currentTime (ticker w1) = _currentTime (ticker w2) /\
  _tickDeltaTime (ticker w1) = _tickDeltaTime (ticker w2) /\
  _minInterval (ticker w1) = _minInterval (ticker w2) /\
  _maxInterval (ticker w1) = _maxInterval (ticker w2) /\
  _now (ticker w1) = _now (ticker w2) /\
  _frameDeltaTime (ticker w1) = _frameDeltaTime (ticker w2) /\
  _interval (ticker w1) = _interval (ticker w2) /\
  _onTickOncePerFrame (ticker w1) = _onTickOncePerFrame (ticker w2) /\
  hasClearAnimationFrame (window w1) = hasClearAnimationFrame (window w2).
Proof.
  unfold pumpState. intros H. injection H. intros. repeat split; assumption.
Qed.

Lemma isReturned_true (c : Completion) :
  isReturned c = true -> exists w, c = (Returned, w).
Proof.
  unfold isReturned. destruct c as [[] w]; simpl; try discriminate. eauto.
Qed.

(** The frame pump without a lower rate bound, once the gate is passed. *)
Lemma onFrame_unbounded (run : Runner) (fuel : nat) (w : World) :
  isNaN (_maxInterval (ticker w)) = true ->
  isNaN (_minInterval (ticker w))
    || (getTimer w - _lastTimeUpdated (ticker w) >=? _minInterval (ticker w))%num = true ->
  onFrame run fuel w
    = bind (bind (update run
                    ((getTimer w - _lastTimeUpdated (ticker w)) * _timeScale (ticker w))%num
                    true (clockRead w))
              (fun w3 => ret (withTicker (fun t => set_lastTimeUpdated (_now t) t) w3)))
        reRegister.
Proof.
  intros Hmax Hgate. unfold onFrame. fold (clockRead w).
  change (_minInterval (ticker (clockRead w))) with (_minInterval (ticker w)).
  change (_frameDeltaTime (ticker (clockRead w)))
    with (getTimer w - _lastTimeUpdated (ticker w))%num.
  change (_maxInterval (ticker (clockRead w))) with (_maxInterval (ticker w)).
  rewrite Hgate, Hmax. reflexivity.
Qed.

(** C6. With [maxInterval] unbounded and the [minInterval] gate passed,
    a frame dispatches exactly one tick, whose [timePassed] is
    [frameDelta * timeScale], on the tick signal and then on the
    once-per-frame signal, and sets [lastTimeUpdated] to [now]; the
    listeners are taken to return. *)
Theorem single_update_when_unbounded (depth fuel : nat) (w : World) :
  let frameDelta := (getTimer w - _lastTimeUpdated (ticker w))%num in
  let timePassed := (frameDelta * _timeScale (ticker w))%num in
  let n := (_currentTick (ticker w) + 1)%N in
  isNaN (_maxInterval (ticker w)) = true ->
  isNaN (_minInterval (ticker w))
    || (frameDelta >=? _minInterval (ticker w))%num = true ->
  isReturned (update (runScript depth) timePassed true (clockRead w)) = true ->
  let w' := snd (onFrame (runScript depth) fuel w) in
  (exists evs, trace w' = trace w ++ evs
               /\ tickDispatches evs = [(OnTick, n); (OnTickOncePerFrame, n)]) /\
  _currentTick (ticker w') = n /\
  _tickDeltaTime (ticker w') = timePassed /\
  _currentTime (ticker w') = (_currentTime (ticker w) + timePassed)%num /\
  _lastTimeUpdated (ticker w') = getTimer w.
Proof.
  intros frameDelta timePassed n Hmax Hgate Hret w'.
  subst w'. rewrite (onFrame_unbounded _ fuel w Hmax Hgate). fold frameDelta timePassed.
  destruct (update_effect depth timePassed true (clockRead w))
    as (Hp & _ & _ & evs & Ht & He).
  rewrite (update_returned_tickRound _ _ _ _ Hret) in He.
  change (true && true) with true in He. cbv iota in He.
  apply isReturned_true in Hret as (w3 & Hup).
  rewrite Hup in Hp, Ht |- *. cbn [bind ret snd fst] in Hp, Ht |- *.
  destruct (reRegister_effect
              (withTicker (fun t => set_lastTimeUpdated (_now t) t) w3))
    as (Ht' & _ & Hp' & _ & _ & Hl' & _).
  rewrite Ht', Hl'.
  assert (Hp3 : pumpState (snd (reRegister
                    (withTicker (fun t => set_lastTimeUpdated (_now t) t) w3)))
                = pumpState (tickBump timePassed (clockRead w))).
  { rewrite Hp'. exact Hp. }
  clear Hp'.
  apply pumpState_eq in Hp3 as (H1 & H2 & H3 & _).
  apply pumpState_eq in Hp as (_ & _ & _ & _ & _ & H4 & _).
  repeat split.
  - exists evs. split; [exact Ht|exact He].
  - exact H1.
  - exact H3.
  - exact H2.
  - exact H4.
Qed.

Lemma single_update_when_unbounded_witness :
  let w := plainAt16 in
  let frameDelta := (getTimer w - _lastTimeUpdated (ticker w))%num in
  let timePassed := (frameDelta * _timeScale (ticker w))%num in
  let n := (_currentTick (ticker w) + 1)%N in
  isNaN (_maxInterval (ticker w)) = true /\
  isNaN (_minInterval (ticker w))
    || (frameDelta >=? _minInterval (ticker w))%num = true /\
  isReturned (update (runScript 1) timePassed true (clockRead w)) = true /\
  let w' := snd (onFrame (runScript 1) 0 w) in
  (exists evs, trace w' = trace w ++ evs
               /\ tickDispatches evs = [(OnTick, n); (OnTickOncePerFrame, n)]) /\
  _currentTick (ticker w') = n /\
  _tickDeltaTime (ticker w') = timePassed /\
  _currentTime (ticker w') = (_currentTime (ticker w) + timePassed)%num /\
  _lastTimeUpdated (ticker w') = getTimer w.
Proof.
  intros w frameDelta timePassed n.
  split; [reflexivity|]. split; [reflexivity|]. split; [reflexivity|].
  apply (single_update_when_unbounded 1 0 plainAt16); reflexivity.
Defined.

(** ** The catch-up burst *)

(** C1. The frame comes after exactly two intervals: two ticks are
    dispatched, and [now <= lastTimeUpdated + 2 * maxInterval] holds for
    both, so the first tick of the burst fires the once-per-frame signal
    as well as the last. *)
Theorem first_of_two_ticks_fires_once_per_frame (hasClear : bool) :
  let w := catchingUpAt20 (if hasClear then lenientWindow 0 else domWindow 0) in
  isNaN (_maxInterval (ticker w)) = false /\
  isPending 1 w = true /\
  exists evs,
    trace (snd (step 0 2 (Frame 1) w)) = trace w ++ evs /\
    tickDispatches evs
      = [(OnTick, 1%N); (OnTickOncePerFrame, 1%N);
         (OnTick, 2%N); (OnTickOncePerFrame, 2%N)].
Proof.
  destruct hasClear; vm_compute; repeat split; eexists; split; reflexivity.
Qed.

(** ** Only the catch-up loop can fail to end *)

Lemma bind_ends (c : Completion) (k : World -> Completion) :
  ends c -> (forall w, ends (k w)) -> ends (bind c k).
Proof. destruct c as [[] w]; simpl; auto. Qed.

Lemma callEach_ends run ch args functions w :
  (forall script w', ends (run script w')) ->
  ends (callEach run ch args functions w).
Proof.
  intros Hrun. revert w. induction functions as [|func rest IH]; intros w; simpl.
  - discriminate.
  - apply bind_ends; auto.
Qed.

Lemma animateOnce_ends w : ends (animateOnce w).
Proof.
  unfold animateOnce. apply bind_ends.
  - destruct (_animationFrameHandle (ticker w)) as [h|]; simpl; [|discriminate].
    destruct (negb (h =? 0)%Z); [|discriminate].
    unfold clearAnimationFrame.
    destruct (hasClearAnimationFrame (window w)); discriminate.
  - intros w1. discriminate.
Qed.

Lemma perform_ends run a w :
  (forall script w', ends (run script w')) -> ends (perform run a w).
Proof.
  intros Hrun.
  assert (Hpause : forall w0, ends (pause run w0)).
  { intros w0. unfold pause. apply bind_ends.
    - destruct (_isRunning (ticker w0)); [|discriminate].
      now apply callEach_ends.
    - intros w1. destruct (_animationFrameHandle (ticker w1)) as [h|]; [|discriminate].
      simpl. destruct (negb (h =? 0)%Z); discriminate. }
  destruct a; simpl; try discriminate.
  - unfold resume. destruct (negb (_isRunning (ticker w))); [|discriminate].
    apply bind_ends; [now apply callEach_ends|apply animateOnce_ends].
  - apply Hpause.
  - unfold dispose. apply bind_ends; [apply Hpause|]. intros w1. discriminate.
Qed.

Lemma runScript_ends depth script w : ends (runScript depth script w).
Proof.
  revert script w. induction depth as [|d IH]; intros script.
  - intros w. destruct script; discriminate.
  - induction script as [|a rest IHs]; intros w; simpl; [discriminate|].
    apply bind_ends; [|exact IHs]. now apply perform_ends.
Qed.

Lemma update_ends depth timePassedMS flag w :
  ends (update (runScript depth) timePassedMS flag w).
Proof.
  unfold update. apply bind_ends.
  - apply callEach_ends, runScript_ends.
  - intros w4. destruct flag; [|discriminate].
    apply callEach_ends, runScript_ends.
Qed.

Lemma reRegister_ends w : ends (reRegister w).
Proof.
  unfold reRegister. destruct (_isRunning (ticker w)); [apply animateOnce_ends|discriminate].
Qed.

(** ** The catch-up loop, one iteration at a time *)

Lemma catchUp_done run fuel w : behind w = false -> catchUp run fuel w = ret w.
Proof. unfold behind. intros H. destruct fuel; simpl; now rewrite H. Qed.

Lemma catchUp_more run fuel w :
  behind w = true ->
  catchUp run (S fuel) w
    = bind (update run (_interval (ticker w) * _timeScale (ticker w))%num
              (visualFrame w) w)
        (fun w1 => catchUp run fuel (advance w1)).
Proof. unfold behind. intros H. simpl. now rewrite H. Qed.

Lemma catchUp_hung run w : behind w = true -> catchUp run 0 w = (Hung, w).
Proof. unfold behind. intros H. simpl. now rewrite H. Qed.

(** The frame pump with a lower rate bound, once the gate is passed. *)
Lemma onFrame_bounded (run : Runner) (fuel : nat) (w : World) :
  isNaN (_maxInterval (ticker w)) = false ->
  isNaN (_minInterval (ticker w))
    || (getTimer w - _lastTimeUpdated (ticker w) >=? _minInterval (ticker w))%num = true ->
  onFrame run fuel w
    = bind (catchUp run fuel
              (withTicker (fun t =>
                 set_interval (Math_min (_frameDeltaTime t) (_maxInterval t)) t)
                 (clockRead w)))
        reRegister.
Proof.
  intros Hmax Hgate. unfold onFrame. fold (clockRead w).
  change (_minInterval (ticker (clockRead w))) with (_minInterval (ticker w)).
  change (_frameDeltaTime (ticker (clockRead w)))
    with (getTimer w - _lastTimeUpdated (ticker w))%num at 1.
  change (_maxInterval (ticker (clockRead w))) with (_maxInterval (ticker w)).
  rewrite Hgate, Hmax. reflexivity.
Qed.

(** ** Double precision *)

Lemma pow2_pos (e : Z) : 0 < pow2 e.
Proof. apply Qpower_0_lt. reflexivity. Qed.

Lemma pow2_plus (a b : Z) : pow2 (a + b) == pow2 a * pow2 b.
Proof. apply Qpower_plus. discriminate. Qed.

Lemma pow2_inject (a : Z) : (0 <= a)%Z -> pow2 a == inject_Z (2 ^ a).
Proof. intros Ha. unfold pow2. now rewrite Zpower_Qpower. Qed.

Lemma exponentOf_le (x : Q) : 0 < x -> pow2 (exponentOf x) <= x.
Proof.
  intros Hx. unfold exponentOf.
  set (a := Z.log2 (Qnum x)). set (b := Z.log2 (Zpos (Qden x))).
  destruct (Qle_bool (pow2 (a - b)) x) eqn:E; [now apply Qle_bool_iff|].
  assert (Hn : (0 < Qnum x)%Z).
  { destruct x as [n d]. unfold Qlt in Hx. simpl in *. lia. }
  assert (Ha : (2 ^ a <= Qnum x)%Z) by (apply Z.log2_spec; exact Hn).
  assert (Hb : (Zpos (Qden x) < 2 ^ (b + 1))%Z).
  { replace (b + 1)%Z with (Z.succ b) by lia. apply Z.log2_spec. reflexivity. }
  assert (Ha0 : (0 <= a)%Z) by apply Z.log2_nonneg.
  assert (Hb0 : (0 <= b)%Z) by apply Z.log2_nonneg.
  (* 2^(a-b-1) = 2^a / 2^(b+1) *)
  assert (Hsplit : pow2 (a - b - 1) * pow2 (b + 1) == pow2 a).
  { rewrite <- pow2_plus. now replace (a - b - 1 + (b + 1))%Z with a by lia. }
  rewrite (pow2_inject a Ha0), (pow2_inject (b + 1)) in Hsplit by lia.
  assert (Hp : 0 < pow2 (a - b - 1)) by apply pow2_pos.
  assert (Hd : 0 < inject_Z (Zpos (Qden x))) by reflexivity.
  assert (Hx' : x * inject_Z (Zpos (Qden x)) == inject_Z (Qnum x)).
  { destruct x as [n d]. unfold Qeq. simpl. lia. }
  assert (Ha' : inject_Z (2 ^ a) <= inject_Z (Qnum x)) by (now rewrite <- Zle_Qle).
  assert (Hb' : inject_Z (Zpos (Qden x)) < inject_Z (2 ^ (b + 1))) by (now rewrite <- Zlt_Qlt).
  (* pow2 (a-b-1) * d < pow2 (a-b-1) * 2^(b+1) = 2^a <= n = x * d *)
  apply Qnot_lt_le. intros Hlt.
  assert (H1 : x * inject_Z (Zpos (Qden x))
               < pow2 (a - b - 1) * inject_Z (Zpos (Qden x))).
  { apply Qmult_lt_compat_r; assumption. }
  assert (H2 : pow2 (a - b - 1) * inject_Z (Zpos (Qden x))
               < pow2 (a - b - 1) * inject_Z (2 ^ (b + 1))).
  { rewrite !(Qmult_comm (pow2 (a - b - 1))). apply Qmult_lt_compat_r; assumption. }
  rewrite Hsplit in H2. rewrite Hx' in H1.
  apply (Qlt_irrefl (inject_Z (Qnum x))).
  eapply Qlt_le_trans; [exact H1|].
  eapply Qle_trans; [apply Qlt_le_weak; exact H2|exact Ha'].
Qed.

Lemma nearestEven_lower (q : Q) : q - (1 # 2) <= inject_Z (nearestEven q).
Proof.
  unfold nearestEven.
  pose proof (Qfloor_le q) as Hf. pose proof (Qlt_floor q) as Hc.
  rewrite inject_Z_plus in Hc. change (inject_Z 1) with 1 in Hc.
  destruct (Qcompare (q - inject_Z (Qfloor q)) (1 # 2)) eqn:E.
  - apply Qeq_alt in E.
    destruct (Z.even (Qfloor q)).
    + lra.
    + rewrite inject_Z_plus. change (inject_Z 1) with 1. lra.
  - apply Qlt_alt in E. lra.
  - rewrite inject_Z_plus. change (inject_Z 1) with 1. lra.
Qed.

Lemma epsilon64_value : epsilon64 = 1 # 9007199254740992.
Proof. reflexivity. Qed.

(** A rounding loses at most [epsilon64] of a positive value. *)
Lemma nearestDouble_accurate (x : Q) :
  0 < x -> (1 - epsilon64) * x <= nearestDouble x.
Proof.
  intros Hx. unfold nearestDouble. rewrite Qred_correct.
  set (e := exponentOf x).
  pose proof (exponentOf_le x Hx) as He. fold e in He.
  pose proof (pow2_pos (e - 52)) as Hu.
  pose proof (nearestEven_lower (x / pow2 (e - 52))) as Hn.
  assert (Hulp : pow2 (e - 52) * (1 # 2) == pow2 e * epsilon64).
  { unfold epsilon64. replace (e - 52)%Z with (e + -52)%Z by lia.
    rewrite pow2_plus. rewrite <- Qmult_assoc.
    now replace (pow2 (-52) * (1 # 2)) with (pow2 (-53)) by reflexivity. }
  assert (H1 : (x / pow2 (e - 52) - (1 # 2)) * pow2 (e - 52)
               <= inject_Z (nearestEven (x / pow2 (e - 52))) * pow2 (e - 52)).
  { apply Qmult_le_compat_r; [exact Hn|now apply Qlt_le_weak]. }
  assert (H2 : (x / pow2 (e - 52) - (1 # 2)) * pow2 (e - 52)
               == x - pow2 e * epsilon64).
  { rewrite <- Hulp. field. intros H0. rewrite H0 in Hu. now apply Qlt_irrefl in Hu. }
  rewrite H2 in H1.
  assert (H3 : pow2 e * epsilon64 <= x * epsilon64).
  { apply Qmult_le_compat_r; [exact He|]. rewrite epsilon64_value. discriminate. }
  lra.
Qed.

Lemma binary64_accurate (x : Q) : 0 <= x -> (1 - epsilon64) * x <= binary64 x.
Proof.
  intros Hx. unfold binary64. destruct x as [n d]. simpl Qnum.
  destruct n as [|p|p].
  - rewrite epsilon64_value. unfold Qle. simpl. lia.
  - apply nearestDouble_accurate. reflexivity.
  - exfalso. unfold Qle in Hx. simpl in Hx. lia.
Qed.

(** ** The frame pump in double precision *)

Lemma add64_Fin (a b : Q) : add64 (Fin a) (Fin b) = Fin (binary64 (a + b)).
Proof. reflexivity. Qed.

Lemma sub64_Fin (a b : Q) : sub64 (Fin a) (Fin b) = Fin (binary64 (a + - b)).
Proof. reflexivity. Qed.

(** One call of [update]: the tick counter moves once; neither [now] nor
    [interval] is touched, the clock is not set back, and
    [lastTimeUpdated] is untouched or a later reading of the clock. *)
Lemma update64_effect (depth : nat) (timePassedMS : number) (flag : bool) (w : World) :
  let c := update64 (runScript depth) timePassedMS flag w in
  pumpState (snd c) = pumpState (tickBump64 timePassedMS w) /\
  (dateNow (window w) <= dateNow (window (snd c)))%Z /\
  lastMoved w (snd c).
Proof.
  intros c. subst c. unfold update64. cbv zeta.
  destruct (dispatch_effect depth OnTick
              (Some (snapshot64 (ticker (tickBump64 timePassedMS w))))
              (tickBump64 timePassedMS w)) as (Hp & Hc & Hl & _).
  change (lastMoved w (snd (dispatch (runScript depth) OnTick
             (Some (snapshot64 (ticker (tickBump64 timePassedMS w))))
             (tickBump64 timePassedMS w)))) in Hl.
  change (dateNow (window (tickBump64 timePassedMS w))) with (dateNow (window w)) in Hc.
  destruct (dispatch (runScript depth) OnTick
              (Some (snapshot64 (ticker (tickBump64 timePassedMS w))))
              (tickBump64 timePassedMS w)) as [o w4].
  cbn [snd] in Hp, Hc, Hl.
  destruct o; simpl; try (repeat split; assumption).
  destruct flag; simpl; [|repeat split; assumption].
  destruct (dispatch_effect depth OnTickOncePerFrame (Some (snapshot64 (ticker w4))) w4)
    as (Hp' & Hc' & Hl' & _).
  repeat split.
  - congruence.
  - lia.
  - now apply lastMoved_trans with w4.
Qed.

Lemma update64_ends depth timePassedMS flag w :
  ends (update64 (runScript depth) timePassedMS flag w).
Proof.
  unfold update64. apply bind_ends.
  - apply callEach_ends, runScript_ends.
  - intros w4. destruct flag; [|discriminate].
    apply callEach_ends, runScript_ends.
Qed.

Lemma catchUp64_done run fuel w : behind64 w = false -> catchUp64 run fuel w = ret w.
Proof. intros H. destruct fuel; simpl; now rewrite H. Qed.

Lemma catchUp64_more run fuel w :
  behind64 w = true ->
  catchUp64 run (S fuel) w
    = bind (update64 run (mul64 (_interval (ticker w)) (_timeScale (ticker w)))
              (_now (ticker w) <=? add64 (_lastTimeUpdated (ticker w))
                                      (mul64 (_maxInterval (ticker w)) (ofZ 2)))%num w)
        (fun w1 => catchUp64 run fuel (advance64 w1)).
Proof. intros H. simpl. now rewrite H. Qed.

Lemma catchUp64_hung run w : behind64 w = true -> catchUp64 run 0 w = (Hung, w).
Proof. intros H. simpl. now rewrite H. Qed.

(** With an interval that exceeds what a rounding of
    [lastTimeUpdated + interval] can lose, and a clock that is not set
    back, every iteration moves [lastTimeUpdated] by [interval - e] at
    least, and the loop ends. *)
Lemma catchUp64_bounded (depth : nat) (c0 : Z) (i M : Q) :
  let e := (inject_Z c0 + M) * epsilon64 in
  0 < i -> e < i -> i <= M ->
  forall (fuel : nat) (w : World) (l : Q),
    _now (ticker w) = ofZ c0 ->
    (c0 <= dateNow (window w))%Z ->
    _interval (ticker w) = Fin i ->
    _lastTimeUpdated (ticker w) = Fin l ->
    0 <= l ->
    inject_Z c0 - l < (inject_Z (Z.of_nat fuel) + 1) * (i - e) ->
    let c := catchUp64 (runScript depth) fuel w in
    ends c /\
    exists k : nat,
      _currentTick (ticker (snd c)) = (_currentTick (ticker w) + N.of_nat k)%N /\
      (k = O \/ inject_Z (Z.of_nat k) * (i - e) <= inject_Z c0 - l).
Proof.
  intros e Hi He HiM. pose proof epsilon64_value as Heps.
  assert (Hbehind : forall w l,
            _now (ticker w) = ofZ c0 -> _interval (ticker w) = Fin i ->
            _lastTimeUpdated (ticker w) = Fin l -> 0 <= l ->
            behind64 w = true ->
            l + i - e <= inject_Z c0 /\ l <= inject_Z c0).
  { intros w l Hnow Hint Hlast Hl Hb.
    unfold behind64 in Hb. rewrite Hnow, Hlast, Hint, add64_Fin in Hb.
    unfold num_ge, ofZ in Hb. simpl in Hb. apply Qle_bool_iff in Hb.
    assert (Ha : (1 - epsilon64) * (l + i) <= binary64 (l + i)).
    { apply binary64_accurate. unfold e in He. rewrite Heps in *. lra. }
    unfold e in *. rewrite Heps in *. split; lra. }
  induction fuel as [|fuel IH]; intros w l Hnow Hclock Hint Hlast Hl Hfuel.
  - destruct (behind64 w) eqn:Hb.
    + exfalso. destruct (Hbehind w l Hnow Hint Hlast Hl Hb) as (H1 & _).
      change (inject_Z (Z.of_nat 0)) with 0 in Hfuel. lra.
    + cbv zeta. rewrite catchUp64_done by exact Hb. split; [discriminate|].
      exists O. split; [simpl; now rewrite N.add_0_r|now left].
  - destruct (behind64 w) eqn:Hb.
    2:{ cbv zeta. rewrite catchUp64_done by exact Hb. split; [discriminate|].
        exists O. split; [simpl; now rewrite N.add_0_r|now left]. }
    cbv zeta. rewrite catchUp64_more by exact Hb.
    destruct (Hbehind w l Hnow Hint Hlast Hl Hb) as (Hle & Hlnow).
    set (tp := mul64 (_interval (ticker w)) (_timeScale (ticker w))).
    set (flag := (_now (ticker w) <=? add64 (_lastTimeUpdated (ticker w))
                                       (mul64 (_maxInterval (ticker w)) (ofZ 2)))%num).
    pose proof (update64_ends depth tp flag w) as Hends.
    destruct (update64_effect depth tp flag w) as (Hp & Hc & Hlm).
    destruct (update64 (runScript depth) tp flag w) as [o w1].
    cbn [snd fst] in *.
    unfold pumpState in Hp. simpl in Hp.
    injection Hp as Htick _ _ _ _ _ _ Hnow1 _ Hint1 _ _.
    assert (Hone : (_currentTick (ticker w1) = _currentTick (ticker w) + N.of_nat 1)%N
                   /\ (1%nat = O \/ inject_Z (Z.of_nat 1) * (i - e) <= inject_Z c0 - l)).
    { split; [exact Htick|]. right. change (inject_Z (Z.of_nat 1)) with 1. lra. }
    destruct o; simpl; try (split; [exact Hends|exists 1%nat; exact Hone]).
    assert (Hl1 : exists l1, _lastTimeUpdated (ticker w1) = Fin l1 /\ l <= l1).
    { destruct Hlm as [Hlm|(z & Hz & Hb1)].
      - exists l. split; [congruence|lra].
      - exists (inject_Z z). split; [exact Hz|].
        assert (inject_Z c0 <= inject_Z z) by (rewrite <- Zle_Qle; lia). lra. }
    destruct Hl1 as (l1 & Hl1 & Hll).
    assert (Hacc : (1 - epsilon64) * (l1 + i) <= binary64 (l1 + i)).
    { apply binary64_accurate. unfold e in He. rewrite Heps in *. lra. }
    assert (Hnext : l + (i - e) <= binary64 (l1 + i)).
    { unfold e in *. rewrite Heps in *. lra. }
    destruct (IH (advance64 w1) (binary64 (l1 + i))) as (Hend & k & Hk & Hbound).
    + simpl. congruence.
    + simpl. lia.
    + simpl. congruence.
    + simpl. rewrite Hl1, Hint1, Hint. apply add64_Fin.
    + lra.
    + rewrite Nat2Z.inj_succ, <- Z.add_1_r, inject_Z_plus in Hfuel.
      change (inject_Z 1) with 1 in Hfuel. lra.
    + split; [exact Hend|]. exists (S k). split.
      * rewrite Hk. simpl _currentTick. rewrite Htick. lia.
      * right. rewrite Nat2Z.inj_succ, <- Z.add_1_r, inject_Z_plus.
        change (inject_Z 1) with 1.
        destruct Hbound as [->|Hbound];
          [change (inject_Z (Z.of_nat 0)) with 0; lra|lra].
Qed.

Lemma binary64_positive (x : Q) : 0 < binary64 x -> 0 < x.
Proof.
  unfold binary64. destruct x as [n d]. simpl Qnum. destruct n as [|p|p].
  - intros H. now apply Qlt_irrefl in H.
  - reflexivity.
  - intros H. exfalso.
    assert (Hx : 0 < - (Z.neg p # d)) by reflexivity.
    pose proof (nearestDouble_accurate _ Hx) as Ha.
    rewrite epsilon64_value in Ha. lra.
Qed.

(** C7. With [maxInterval] bounded and positive, [lastTimeUpdated] not
    negative, a positive [frameDelta] and an [interval], the smaller of
    [frameDelta] and [maxInterval], that exceeds [e], which is what the
    rounding of [lastTimeUpdated + interval] to a double can lose, the
    catch-up loop ends, after at most
    [(now - lastTimeUpdated) / (interval - e)] iterations. *)
Theorem catch_up_ends_within_bound (depth fuel : nat) (w : World) (M l : Q) :
  _maxInterval (ticker w) = Fin M ->
  0 < M ->
  _lastTimeUpdated (ticker w) = Fin l ->
  0 <= l ->
  let now := inject_Z (dateNow (window w)) in
  let frameDelta := binary64 (now - l) in
  let interval := if Qle_bool frameDelta M then frameDelta else M in
  let e := (now + M) * epsilon64 in
  0 < frameDelta ->
  e < interval ->
  now - l < (inject_Z (Z.of_nat fuel) + 1) * (interval - e) ->
  let c := onFrame64 (runScript depth) fuel w in
  ends c /\
  exists iterations : nat,
    _currentTick (ticker (snd c))
      = (_currentTick (ticker w) + N.of_nat iterations)%N /\
    inject_Z (Z.of_nat iterations) * (interval - e) <= now - l.
Proof.
  intros Hmax HM Hlast Hl now frameDelta interval e Hfd He Hfuel c. subst c.
  assert (Hpos : 0 < now - l) by (apply binary64_positive; exact Hfd).
  assert (Hi : 0 < interval).
  { unfold interval. destruct (Qle_bool frameDelta M); assumption. }
  assert (HiM : interval <= M).
  { unfold interval. destruct (Qle_bool frameDelta M) eqn:E.
    - now apply Qle_bool_iff. - apply Qle_refl. }
  set (w2 := withTicker (fun t =>
               set_frameDeltaTime (sub64 (_now t) (_lastTimeUpdated t)) t)
               (withTicker (set_now (getTimer w)) w)).
  set (w3 := withTicker (fun t =>
               set_interval (Math_min (_frameDeltaTime t) (_maxInterval t)) t) w2).
  change (onFrame64 (runScript depth) fuel w)
    with (bind (if isNaN (_minInterval (ticker w))
                   || (_frameDeltaTime (ticker w2) >=? _minInterval (ticker w))%num
                then
                  if negb (isNaN (_maxInterval (ticker w))) then
                    catchUp64 (runScript depth) fuel w3
                  else
                    bind (update64 (runScript depth)
                            (mul64 (_frameDeltaTime (ticker w2)) (_timeScale (ticker w)))
                            true w2)
                      (fun w3 => ret (withTicker
                                        (fun t => set_lastTimeUpdated (_now t) t) w3))
                else ret w2)
            reRegister).
  assert (Hloop : let c := catchUp64 (runScript depth) fuel w3 in
            ends c /\
            exists k : nat,
              _currentTick (ticker (snd c)) = (_currentTick (ticker w) + N.of_nat k)%N /\
              (k = O \/ inject_Z (Z.of_nat k) * (interval - e) <= now - l)).
  { apply (catchUp64_bounded depth (dateNow (window w)) interval M Hi He HiM fuel w3 l).
    - reflexivity.
    - simpl. lia.
    - simpl. rewrite Hmax, Hlast. unfold getTimer, ofZ. rewrite sub64_Fin.
      change (binary64 (inject_Z (dateNow (window w)) + - l)) with frameDelta.
      unfold interval, Math_min, num_le. now destruct (Qle_bool frameDelta M).
    - exact Hlast.
    - exact Hl.
    - exact Hfuel. }
  rewrite Hmax. simpl negb. cbv iota.
  destruct (isNaN (_minInterval (ticker w))
            || (_frameDeltaTime (ticker w2) >=? _minInterval (ticker w))%num).
  - destruct Hloop as (Hend & k & Hk & Hb).
    split.
    + apply bind_ends; [exact Hend|apply reRegister_ends].
    + exists k.
      destruct (catchUp64 (runScript depth) fuel w3) as [o w4]. cbn [snd] in *.
      split.
      * destruct o; simpl; trivial.
        destruct (reRegister_effect w4) as (_ & _ & Hp & _).
        unfold pumpState in Hp. simpl in Hp. injection Hp as H1 _.
        congruence.
      * destruct Hb as [->|Hb]; [change (inject_Z (Z.of_nat 0)) with 0; lra|exact Hb].
  - split.
    + apply bind_ends; [discriminate|apply reRegister_ends].
    + exists O. split.
      * simpl bind. destruct (reRegister_effect w2) as (_ & _ & Hp & _).
        unfold pumpState in Hp. simpl in Hp. injection Hp as H1 _.
        rewrite H1. simpl. now rewrite N.add_0_r.
      * change (inject_Z (Z.of_nat 0)) with 0. lra.
Qed.

(** A ticker with a minimum of 144 ticks per second and a frame that is
    3618 ms late: 521 iterations. *)
Lemma catch_up_ends_within_bound_witness :
  let w := lateFrame64 144 1793703600000 3618 in
  let M := 3909374676536889 # 562949953421312 in
  let l := 1793703600000 # 1 in
  let now := inject_Z (dateNow (window w)) in
  let frameDelta := binary64 (now - l) in
  let interval := if Qle_bool frameDelta M then frameDelta else M in
  let e := (now + M) * epsilon64 in
  _maxInterval (ticker w) = Fin M /\
  0 < M /\
  _lastTimeUpdated (ticker w) = Fin l /\
  0 <= l /\
  0 < frameDelta /\
  e < interval /\
  now - l < (inject_Z (Z.of_nat 521) + 1) * (interval - e) /\
  let c := onFrame64 (runScript 0) 521 w in
  ends c /\
  exists iterations : nat,
    _currentTick (ticker (snd c))
      = (_currentTick (ticker w) + N.of_nat iterations)%N /\
    inject_Z (Z.of_nat iterations) * (interval - e) <= now - l.
Proof.
  intros w M l now frameDelta interval e.
  assert (H1 : _maxInterval (ticker w) = Fin M) by (vm_compute; reflexivity).
  assert (H2 : 0 < M) by reflexivity.
  assert (H3 : _lastTimeUpdated (ticker w) = Fin l) by (vm_compute; reflexivity).
  assert (H4 : 0 <= l) by discriminate.
  assert (H5 : 0 < frameDelta) by (vm_compute; reflexivity).
  assert (H6 : e < interval) by (vm_compute; reflexivity).
  assert (H7 : now - l < (inject_Z (Z.of_nat 521) + 1) * (interval - e))
    by (vm_compute; reflexivity).
  repeat (split; [assumption|]).
  exact (catch_up_ends_within_bound 0 521 w M l H1 H2 H3 H4 H5 H6 H7).
Defined.

(** The same frame on the clock: 521 ticks, where
    [frameDelta / maxInterval] is 520.992: the roundings of
    [lastTimeUpdated + interval] have made room for one more. *)
Lemma rounding_adds_an_iteration :
  let w := lateFrame64 144 1793703600000 3618 in
  let c := onFrame64 (runScript 0) 521 w in
  fst c = Returned /\
  _currentTick (ticker (snd c)) = (_currentTick (ticker w) + 521)%N /\
  (_frameDeltaTime (ticker (snd c)) / _maxInterval (ticker w) <? ofZ 521)%num = true.
Proof. vm_compute. repeat split. Qed.

(** When [lastTimeUpdated + interval] rounds to [lastTimeUpdated], the
    loop never ends, whatever the budget. *)
Lemma catchUp64_hangs_when_absorbed (run : Runner) (n l i : Q) :
  binary64 (l + i) = l -> l <= n ->
  forall (fuel : nat) (w : World),
    _onTick (ticker w) = [] -> _onTickOncePerFrame (ticker w) = [] ->
    _now (ticker w) = Fin n -> _interval (ticker w) = Fin i ->
    _lastTimeUpdated (ticker w) = Fin l ->
    fst (catchUp64 run fuel w) = Hung.
Proof.
  intros Habs Hle.
  assert (Hb : forall w, _now (ticker w) = Fin n -> _interval (ticker w) = Fin i ->
                 _lastTimeUpdated (ticker w) = Fin l -> behind64 w = true).
  { intros w Hn Hi Hl. unfold behind64. rewrite Hn, Hi, Hl, add64_Fin, Habs.
    simpl. now apply Qle_bool_iff. }
  induction fuel as [|fuel IH]; intros w Ht Ho Hn Hi Hl.
  - rewrite catchUp64_hung; auto.
  - rewrite catchUp64_more by auto.
    assert (Hup : forall t flag,
              exists w1, update64 run t flag w = (Returned, w1) /\
                _onTick (ticker w1) = [] /\ _onTickOncePerFrame (ticker w1) = [] /\
                _now (ticker w1) = Fin n /\ _interval (ticker w1) = Fin i /\
                _lastTimeUpdated (ticker w1) = Fin l).
    { intros t flag. unfold update64, dispatch. simpl signal. rewrite Ht. simpl.
      destruct flag; [rewrite Ho|]; simpl; eexists; repeat split; eassumption. }
    destruct (Hup (mul64 (_interval (ticker w)) (_timeScale (ticker w)))
                (_now (ticker w) <=? add64 (_lastTimeUpdated (ticker w))
                                        (mul64 (_maxInterval (ticker w)) (ofZ 2)))%num)
      as (w1 & -> & Ht1 & Ho1 & Hn1 & Hi1 & Hl1).
    simpl bind. apply IH; simpl; trivial.
    now rewrite Hl1, Hi1, add64_Fin, Habs.
Qed.

(** The frame pump with a lower rate bound, once the gate is passed. *)
Lemma onFrame64_bounded (run : Runner) (fuel : nat) (w : World) :
  isNaN (_maxInterval (ticker w)) = false ->
  isNaN (_minInterval (ticker w))
    || (sub64 (getTimer w) (_lastTimeUpdated (ticker w)) >=? _minInterval (ticker w))%num
    = true ->
  onFrame64 run fuel w
    = bind (catchUp64 run fuel
              (withTicker (fun t =>
                 set_interval (Math_min (_frameDeltaTime t) (_maxInterval t)) t)
                 (withTicker (fun t =>
                    set_frameDeltaTime (sub64 (_now t) (_lastTimeUpdated t)) t)
                    (withTicker (set_now (getTimer w)) w))))
        reRegister.
Proof.
  intros Hmax Hgate. unfold onFrame64. cbv zeta.
  set (w2 := withTicker (fun t =>
               set_frameDeltaTime (sub64 (_now t) (_lastTimeUpdated t)) t)
               (withTicker (set_now (getTimer w)) w)).
  change (_minInterval (ticker w2)) with (_minInterval (ticker w)).
  change (_frameDeltaTime (ticker w2))
    with (sub64 (getTimer w) (_lastTimeUpdated (ticker w))) at 1.
  change (_maxInterval (ticker w2)) with (_maxInterval (ticker w)).
  rewrite Hgate, Hmax. reflexivity.
Qed.

(** With a minimum of 100 million ticks per second, [interval] is
    0.00001 ms and [lastTimeUpdated + interval] is [lastTimeUpdated] at
    the times that [Date.now()] gives: the loop does not end. *)
Lemma small_interval_is_absorbed (fuel : nat) :
  fst (onFrame64 (runScript 0) fuel (lateFrame64 100000000 1793703600000 100)) = Hung.
Proof.
  rewrite onFrame64_bounded by (vm_compute; reflexivity).
  match goal with |- fst (bind (catchUp64 _ _ ?w) _) = _ => set (w3 := w) end.
  assert (H : fst (catchUp64 (runScript 0) fuel w3) = Hung).
  { apply (catchUp64_hangs_when_absorbed (runScript 0) (1793703600100 # 1)
             (1793703600000 # 1) (binary64 (1000 # 100000000)));
      try (vm_compute; reflexivity). discriminate. }
  destruct (catchUp64 (runScript 0) fuel w3) as [o w4]. simpl in H. now subst o.
Qed.

(** When the frame comes in the millisecond of the last update,
    [interval] is 0 and nothing moves [lastTimeUpdated]: so for the first
    frame of a ticker with a minimum rate, when it comes in the
    millisecond of [resume()]. *)
Lemma frame_in_the_millisecond_of_resume_hangs (fuel : nat) :
  fst (onFrame64 (runScript 0) fuel (lateFrame64 100 0 0)) = Hung.
Proof.
  rewrite onFrame64_bounded by (vm_compute; reflexivity).
  match goal with |- fst (bind (catchUp64 _ _ ?w) _) = _ => set (w3 := w) end.
  assert (H : fst (catchUp64 (runScript 0) fuel w3) = Hung).
  { apply (catchUp64_hangs_when_absorbed (runScript 0) 0 0 0);
      try (vm_compute; reflexivity). discriminate. }
  destruct (catchUp64 (runScript 0) fuel w3) as [o w4]. simpl in H. now subst o.
Qed.

(** The bound [frameDelta / maxInterval] is exceeded by the frame that
    comes 6 ms after the last update when [maxInterval] is 10 ms: one
    tick, and [6 / 10 < 1]. *)
Lemma one_tick_is_more_than_frameDelta_over_maxInterval :
  let w := lateFrame64 100 0 6 in
  let frameDelta := sub64 (getTimer w) (_lastTimeUpdated (ticker w)) in
  let c := onFrame64 (runScript 0) 1 w in
  isNaN (_maxInterval (ticker w)) = false /\
  fst c = Returned /\
  _currentTick (ticker (snd c)) = (_currentTick (ticker w) + 1)%N /\
  (ofZ 1 <=? frameDelta / _maxInterval (ticker w))%num = false.
Proof. vm_compute. repeat split. Qed.

(** ** Ticks and the running flag *)

Lemma ticksWhilePaused_app (tr1 tr2 : list Event) :
  ticksWhilePaused (tr1 ++ tr2) = ticksWhilePaused tr1 ++ ticksWhilePaused tr2.
Proof.
  induction tr1 as [|e tr1 IH]; simpl; trivial.
  destruct e as [[] [[[s d] n]|] []| |]; simpl; now rewrite IH.
Qed.

Lemma steady_log x e w :
  ticksWhilePaused [e] = [] -> steady x w -> steady x (log e w).
Proof.
  intros He (Hr & Ht & Hl). repeat split; trivial.
  simpl. now rewrite ticksWhilePaused_app, He, app_nil_r.
Qed.

Lemma steady_perform x run a w :
  staysOn a = true -> steady x w -> steady x (snd (perform run a w)).
Proof.
  intros Ha Hw. pose proof Hw as (Hr & Ht & Hl).
  destruct a; try discriminate; simpl.
  - unfold resume. now rewrite Hr.
  - unfold set_timeScale_value.
    now destruct (negb (strictEq (_timeScale (ticker w)) value)).
  - exact Hw.
Qed.

Lemma steady_runScript x depth script w :
  forallb staysOn script = true -> steady x w ->
  steady x (snd (runScript depth script w)).
Proof.
  destruct depth as [|d].
  - intros _ Hw. now destruct script.
  - revert w. induction script as [|a rest IH]; intros w Hs Hw; simpl; trivial.
    simpl in Hs. apply andb_true_iff in Hs as [Ha Hs].
    apply (bind_world (steady x)); [now apply steady_perform|].
    intros w1 Hw1. now apply IH.
Qed.

Lemma steady_callEach x depth ch args functions w :
  (forall func obs, In func functions -> forallb staysOn (body func obs args) = true) ->
  steady x w -> steady x (snd (callEach (runScript depth) ch args functions w)).
Proof.
  revert w. induction functions as [|func rest IH]; intros w Hf Hw; simpl; trivial.
  apply (bind_world (steady x)).
  - apply steady_runScript; [apply Hf; now left|].
    now apply steady_log.
  - intros w1 Hw1. apply IH; trivial. intros f obs Hin. apply Hf. now right.
Qed.

Lemma steady_dispatch x depth ch args w :
  lifecycle ch = false ->
  steady x w -> steady x (snd (dispatch (runScript depth) ch args w)).
Proof.
  intros Hch Hw. pose proof Hw as (Hr & Ht & Hl). unfold dispatch.
  apply steady_callEach.
  - intros func obs Hin. apply Hl. apply in_or_app.
    destruct ch; try discriminate; [now left|now right].
  - apply steady_log; trivial. rewrite Hr. now destruct ch, args as [[[s d] n]|].
Qed.

Lemma steady_update x depth timePassedMS flag w :
  steady x w -> steady x (snd (update (runScript depth) timePassedMS flag w)).
Proof.
  intros Hw. unfold update.
  apply (bind_world (steady x)).
  - now apply steady_dispatch.
  - intros w4 Hw4. destruct flag; trivial. now apply steady_dispatch.
Qed.

Lemma steady_catchUp x depth fuel w :
  steady x w -> steady x (snd (catchUp (runScript depth) fuel w)).
Proof.
  revert w. induction fuel as [|fuel IH]; intros w Hw.
  - simpl. now destruct (_ >=? _)%num.
  - destruct (behind w) eqn:Hb.
    + rewrite catchUp_more by exact Hb.
      apply (bind_world (steady x)); [now apply steady_update|].
      intros w1 Hw1. apply IH. exact Hw1.
    + now rewrite catchUp_done.
Qed.

Lemma steady_reRegister x w : steady x w -> steady x (snd (reRegister w)).
Proof.
  intros (Hr & Ht & Hl).
  destruct (reRegister_effect w) as (Ht' & _ & _ & Hr' & _ & _ & Hs).
  repeat split; [congruence|congruence|].
  intros func args.
  change (_onTick (ticker (snd (reRegister w))))
    with (signal OnTick (ticker (snd (reRegister w)))).
  change (_onTickOncePerFrame (ticker (snd (reRegister w))))
    with (signal OnTickOncePerFrame (ticker (snd (reRegister w)))).
  rewrite (Hs OnTick), (Hs OnTickOncePerFrame). apply Hl.
Qed.

(** C3. A pass of the frame pump that starts with [isRunning] true, and
    in which no listener of the tick signals calls [pause()] or
    [dispose()], dispatches all its ticks while [isRunning] is true, and
    leaves it true. *)
Theorem ticks_of_a_pass_while_running (depth fuel : nat) (w : World) :
  _isRunning (ticker w) = true ->
  (forall func args,
     In func (_onTick (ticker w) ++ _onTickOncePerFrame (ticker w)) ->
     forall obs, forallb staysOn (body func obs args) = true) ->
  let w' := snd (onFrame (runScript depth) fuel w) in
  ticksWhilePaused (trace w') = ticksWhilePaused (trace w) /\
  _isRunning (ticker w') = true.
Proof.
  intros Hr Hl w'.
  assert (Hw : steady (ticksWhilePaused (trace w)) w) by (repeat split; trivial).
  assert (Hw' : steady (ticksWhilePaused (trace w)) w').
  { subst w'. unfold onFrame. fold (clockRead w).
    apply (bind_world (steady (ticksWhilePaused (trace w))));
      [|intros w5; apply steady_reRegister].
    assert (H2 : steady (ticksWhilePaused (trace w)) (clockRead w)) by exact Hw.
    destruct (_ || _); trivial.
    destruct (negb _).
    - now apply steady_catchUp.
    - apply (bind_world (steady (ticksWhilePaused (trace w))));
        [now apply steady_update|].
      intros w3 Hw3. exact Hw3. }
  destruct Hw' as (Hr' & Ht' & _). now split.
Qed.

(** The ticks that follow a listener's [pause()] in the same burst are
    dispatched all the same, with [isRunning] false. *)
Lemma ticks_after_pause_in_burst :
  let w := pausingAt 1 in
  let c := onFrame (runScript 1) 3 w in
  _isRunning (ticker w) = true /\
  ticksWhilePaused (trace w) = [] /\
  fst c = Returned /\
  ticksWhilePaused (trace (snd c)) = [2%N; 3%N] /\
  _currentTick (ticker (snd c)) = 3%N /\
  _isRunning (ticker (snd c)) = false.
Proof. vm_compute. repeat split. Qed.

Lemma ticks_of_a_pass_while_running_witness :
  let w := withWindow (setClock 30)
             (withTicker (subscribe OnTick scalingListener) (hundredPerSecondAt 0)) in
  _isRunning (ticker w) = true /\
  (forall func args,
     In func (_onTick (ticker w) ++ _onTickOncePerFrame (ticker w)) ->
     forall obs, forallb staysOn (body func obs args) = true) /\
  let w' := snd (onFrame (runScript 1) 3 w) in
  ticksWhilePaused (trace w') = ticksWhilePaused (trace w) /\
  _isRunning (ticker w') = true.
Proof.
  intros w.
  assert (H1 : _isRunning (ticker w) = true) by reflexivity.
  assert (H2 : forall func args,
             In func (_onTick (ticker w) ++ _onTickOncePerFrame (ticker w)) ->
             forall obs, forallb staysOn (body func obs args) = true).
  { intros func args [<-|[]] obs. reflexivity. }
  split; [exact H1|]. split; [exact H2|].
  exact (ticks_of_a_pass_while_running 1 3 w H1 H2).
Defined.

(** ** What holds through a whole life

    A property stable under what scripts can reach and under the
    changes made by the frame pump and by the operations from outside
    holds through [onFrame], [step] and [lifetime], whatever the
    listeners do. *)

Section Life.

Variable allowed : Channel -> Listener -> Prop.
Variable okOp : Op -> Prop.

Variable P : World -> Prop.

Hypothesis P_reach : forall w w',
  reach anyAction anyDispatch anyDispatch allowed w w' -> P w -> P w'.

Hypothesis P_pumps : forall w w', pumps okOp w w' -> P w -> P w'.

Hypothesis P_allows : forall w ch func,
  P w -> In func (signal ch (ticker w)) -> allowed ch func.

Lemma life_runScript depth script w : P w -> P (snd (runScript depth script w)).
Proof.
  intros Hw.
  apply (runScript_keeps anyAction anyDispatch anyDispatch allowed P); trivial;
    try (intros; exact I).
  - intros; apply Forall_anyAction.
  - apply Forall_anyAction.
Qed.

Lemma life_keeps depth : keeps anyAction P (runScript depth).
Proof. intros script w _. apply life_runScript. Qed.

Lemma life_dispatch depth ch args w :
  P w -> P (snd (dispatch (runScript depth) ch args w)).
Proof.
  intros Hw.
  apply (dispatch_keeps anyAction anyDispatch anyDispatch allowed P); trivial;
    try exact I.
  - intros; apply Forall_anyAction.
  - apply life_keeps.
Qed.

Lemma life_perform depth a w : P w -> P (snd (perform (runScript depth) a w)).
Proof.
  intros Hw.
  apply (perform_keeps anyAction anyDispatch anyDispatch allowed P); trivial;
    try (intros; exact I).
  - intros; apply Forall_anyAction.
  - apply life_keeps.
Qed.

Lemma life_update depth timePassedMS flag w :
  P w -> P (snd (update (runScript depth) timePassedMS flag w)).
Proof.
  intros Hw. unfold update. fold (tickBump timePassedMS w).
  apply bind_world.
  - apply life_dispatch. eapply P_pumps; [apply pumps_bump|exact Hw].
  - intros w4 Hw4. destruct flag; trivial. now apply life_dispatch.
Qed.

Lemma life_catchUp depth fuel w :
  P w -> P (snd (catchUp (runScript depth) fuel w)).
Proof.
  revert w. induction fuel as [|fuel IH]; intros w Hw.
  - simpl. now destruct (_ >=? _)%num.
  - destruct (behind w) eqn:Hb.
    + rewrite catchUp_more by exact Hb.
      apply bind_world; [now apply life_update|].
      intros w1 Hw1. apply IH. eapply P_pumps; [apply pumps_advance|exact Hw1].
    + now rewrite catchUp_done.
Qed.

Lemma life_reRegister w : P w -> P (snd (reRegister w)).
Proof.
  intros Hw. unfold reRegister. destruct (_isRunning (ticker w)); trivial.
  apply (animateOnce_keeps anyAction anyDispatch anyDispatch allowed P); trivial.
Qed.

Lemma life_onFrame depth fuel w :
  P w -> P (snd (onFrame (runScript depth) fuel w)).
Proof.
  intros Hw. unfold onFrame. fold (clockRead w).
  assert (H2 : P (clockRead w)) by (eapply P_pumps; [apply pumps_clockRead|exact Hw]).
  apply bind_world; [|intros w5; apply life_reRegister].
  destruct (_ || _); trivial.
  destruct (negb _).
  - apply life_catchUp. eapply P_pumps; [apply pumps_interval|exact H2].
  - apply bind_world; [now apply life_update|].
    intros w3 Hw3. simpl. eapply P_pumps; [apply pumps_lastNow|exact Hw3].
Qed.

Lemma life_step depth fuel op w :
  okOp op -> P w -> P (snd (step depth fuel op w)).
Proof.
  intros Hop Hw. destruct op; simpl.
  - apply (life_perform depth CallResume w Hw).
  - apply (life_perform depth CallPause w Hw).
  - apply (life_perform depth CallDispose w Hw).
  - apply (life_perform depth (SetTimeScale value) w Hw).
  - unfold updateOnce. apply life_runScript.
    eapply P_pumps; [apply pumps_callback|exact Hw].
  - eapply P_pumps; [now apply pumps_subscribe|exact Hw].
  - destruct (isPending handle w); trivial.
    apply life_onFrame. eapply P_pumps; [apply pumps_fired|exact Hw].
  - now apply life_onFrame.
  - eapply P_pumps; [apply pumps_clock|exact Hw].
Qed.

Lemma life_lifetime depth fuel ops w :
  Forall okOp ops -> P w -> P (snd (lifetime depth fuel ops w)).
Proof.
  intros Hops. revert w. induction Hops as [|op rest Hop _ IH]; intros w Hw; simpl; trivial.
  pose proof (life_step depth fuel op w Hop Hw) as H1.
  destruct (step depth fuel op w) as [[] w1]; simpl in *; auto.
Qed.

End Life.

(** ** After dispose *)










(** ** The counters over a life *)

Lemma currentTick_reach (allowed : Channel -> Listener -> Prop) w w' :
  reach anyAction anyDispatch anyDispatch allowed w w' ->
  _currentTick (ticker w') = _currentTick (ticker w).
Proof. intros H. now destruct H. Qed.

(** [currentTick] never decreases. *)
Lemma currentTick_never_decreases (depth fuel : nat) (ops : list Op) (w : World) :
  (_currentTick (ticker w) <= _currentTick (ticker (snd (lifetime depth fuel ops w))))%N.
Proof.
  apply (life_lifetime anyListener (fun _ => True)
           (fun w' => (_currentTick (ticker w) <= _currentTick (ticker w'))%N)).
  - intros w1 w2 H Hle. now rewrite (currentTick_reach _ _ _ H).
  - intros w1 w2 H Hle. destruct H; simpl; trivial; try lia. now destruct ch.
  - intros; exact I.
  - apply Forall_forall. intros; exact I.
  - lia.
Qed.

(** *** currentTime *)

Lemma thriving_same c0 w w' :
  _timeScale (ticker w') = _timeScale (ticker w) ->
  _maxInterval (ticker w') = _maxInterval (ticker w) ->
  _currentTime (ticker w') = _currentTime (ticker w) ->
  (forall ch func, In func (signal ch (ticker w')) -> In func (signal ch (ticker w))) ->
  thriving c0 w -> thriving c0 w'.
Proof.
  intros Hs Hm Hc Hl ((Hts & Hmax & Hb) & Hg).
  unfold thriving, paced, grown. rewrite Hs, Hm, Hc.
  repeat split; trivial. intros ch func Hin. apply (Hb ch), Hl, Hin.
Qed.

Lemma thriving_reach c0 w w' :
  reach benign anyDispatch anyDispatch benignListener w w' ->
  thriving c0 w -> thriving c0 w'.
Proof.
  intros H Hw. destruct H;
    try (apply (thriving_same c0 w); trivial; intros []; trivial; fail).
  - destruct Hw as ((_ & Hmax & Hb) & Hg). repeat split; trivial.
  - apply (thriving_same c0 w); trivial. now intros [].
  - apply (thriving_same c0 w); trivial. now intros [].
  - apply (thriving_same c0 w); trivial. now intros [].
Qed.

Lemma thriving_allows c0 w ch func :
  thriving c0 w -> In func (signal ch (ticker w)) -> benignListener ch func.
Proof. intros ((_ & _ & Hb) & _). apply Hb. Qed.

Lemma benignListener_body ch func obs args :
  benignListener ch func -> Forall benign (body func obs args).
Proof. intros H. apply H. Qed.

Lemma anyDispatch_lifecycle ch : lifecycle ch = true -> anyDispatch ch None.
Proof. intros _. exact I. Qed.

Lemma thriving_keeps c0 depth : keeps benign (thriving c0) (runScript depth).
Proof.
  exact (runScript_keeps benign anyDispatch anyDispatch benignListener (thriving c0)
           (thriving_reach c0) (thriving_allows c0) benignListener_body
           anyDispatch_lifecycle anyDispatch_lifecycle depth).
Qed.

Lemma thriving_dispatch c0 depth ch args w :
  thriving c0 w -> thriving c0 (snd (dispatch (runScript depth) ch args w)).
Proof.
  exact (dispatch_keeps benign anyDispatch anyDispatch benignListener (thriving c0)
           (thriving_reach c0) (thriving_allows c0) benignListener_body
           (runScript depth) ch args w (thriving_keeps c0 depth) I I).
Qed.

Lemma thriving_perform c0 depth a w :
  benign a -> thriving c0 w -> thriving c0 (snd (perform (runScript depth) a w)).
Proof.
  exact (perform_keeps benign anyDispatch anyDispatch benignListener (thriving c0)
           (thriving_reach c0) (thriving_allows c0) benignListener_body
           anyDispatch_lifecycle anyDispatch_lifecycle
           (runScript depth) a w (thriving_keeps c0 depth)).
Qed.

(** A tick that adds a non-negative time. *)
Lemma thriving_update c0 depth t flag w :
  0 <= t ->
  thriving c0 w -> thriving c0 (snd (update (runScript depth) (Fin t) flag w)).
Proof.
  intros Ht Hw. unfold update. fold (tickBump (Fin t) w).
  assert (H3 : thriving c0 (tickBump (Fin t) w)).
  { destruct Hw as (Hp & c & Hc & Hle). split; [exact Hp|].
    exists (c + t). split; [simpl; now rewrite Hc|lra]. }
  apply bind_world; [now apply thriving_dispatch|].
  intros w4 Hw4. destruct flag; trivial. now apply thriving_dispatch.
Qed.

Lemma thriving_catchUp c0 depth fuel w :
  stepping w -> thriving c0 w ->
  thriving c0 (snd (catchUp (runScript depth) fuel w)).
Proof.
  revert w. induction fuel as [|fuel IH]; intros w Hi Hw.
  - simpl. now destruct (_ >=? _)%num.
  - destruct (behind w) eqn:Hb; [|now rewrite catchUp_done].
    rewrite catchUp_more by exact Hb.
    destruct Hi as (i & Hi & Hi0).
    pose proof Hw as (((s & Hs & Hs0) & _) & _).
    rewrite Hi, Hs. simpl num_mul.
    assert (Ht : 0 <= i * s) by now apply Qmult_le_0_compat.
    pose proof (thriving_update c0 depth (i * s) (visualFrame w) w Ht Hw) as H1.
    destruct (update_effect depth (Fin (i * s)) (visualFrame w) w) as (Hp & _).
    apply pumpState_eq in Hp as (_ & _ & _ & _ & _ & _ & _ & Hint & _).
    destruct (update (runScript depth) (Fin (i * s)) (visualFrame w) w) as [o w1].
    cbn [snd] in *. destruct o; simpl; trivial.
    apply IH.
    + exists i. split; [|exact Hi0]. simpl. now rewrite Hint.
    + apply (thriving_same c0 w1); trivial; now intros [].
Qed.

Lemma thriving_reRegister c0 w : thriving c0 w -> thriving c0 (snd (reRegister w)).
Proof.
  intros Hw. destruct (reRegister_effect w) as (_ & _ & Hp & _ & Hs & _ & Hl).
  apply pumpState_eq in Hp as (_ & Hc & _ & _ & Hm & _).
  apply (thriving_same c0 w); trivial. intros ch func. now rewrite Hl.
Qed.

(** The frame pump, when the clock is not behind [lastTimeUpdated]. *)
Lemma thriving_onFrame c0 depth fuel w :
  onTime w -> thriving c0 w -> thriving c0 (snd (onFrame (runScript depth) fuel w)).
Proof.
  intros (l & Hl & Hle) Hw. unfold onFrame. fold (clockRead w).
  assert (H2 : thriving c0 (clockRead w)).
  { apply (thriving_same c0 w); trivial; now intros []. }
  assert (Hfd : _frameDeltaTime (ticker (clockRead w))
                = Fin (inject_Z (dateNow (window w)) - l)).
  { simpl. now rewrite Hl. }
  assert (Hfd0 : 0 <= inject_Z (dateNow (window w)) - l) by lra.
  set (fd := inject_Z (dateNow (window w)) - l) in *.
  apply bind_world; [|intros w5; apply thriving_reRegister].
  destruct (_ || _); trivial.
  pose proof Hw as (((s & Hs & Hs0) & Hmax & _) & _).
  change (_maxInterval (ticker (clockRead w))) with (_maxInterval (ticker w)).
  destruct (isNaN (_maxInterval (ticker w))) eqn:Hnan; simpl negb; cbv iota.
  - change (_timeScale (ticker (clockRead w))) with (_timeScale (ticker w)).
    rewrite Hfd, Hs. simpl num_mul.
    apply bind_world.
    + apply thriving_update; trivial. now apply Qmult_le_0_compat.
    + intros w3 Hw3. simpl. apply (thriving_same c0 w3); trivial; now intros [].
  - apply thriving_catchUp.
    + unfold stepping.
      change (_interval (ticker (withTicker (fun t =>
                set_interval (Math_min (_frameDeltaTime t) (_maxInterval t)) t)
                (clockRead w))))
        with (Math_min (_frameDeltaTime (ticker (clockRead w))) (_maxInterval (ticker w))).
      rewrite Hfd.
      destruct Hmax as [Hm|[Hm|(M & Hm & HM)]]; rewrite Hm in *; try discriminate.
      * exists fd. now split.
      * simpl. destruct (Qle_bool fd M); [exists fd|exists M]; split; trivial; lra.
    + apply (thriving_same c0 (clockRead w)); trivial; now intros [].
Qed.

Lemma thriving_lifetime c0 depth fuel ops :
  Forall benignOp ops ->
  forall w, timely depth fuel ops w -> thriving c0 w ->
            thriving c0 (snd (lifetime depth fuel ops w)).
Proof.
  induction 1 as [|op rest Hop _ IH]; intros w Ht Hw; simpl; trivial.
  destruct Ht as [Hnow Ht].
  assert (H1 : thriving c0 (snd (step depth fuel op w))).
  { destruct op; simpl.
    - now apply (thriving_perform c0 depth CallResume).
    - now apply (thriving_perform c0 depth CallPause).
    - now apply (thriving_perform c0 depth CallDispose).
    - now apply (thriving_perform c0 depth (SetTimeScale value)).
    - unfold updateOnce. apply thriving_keeps; [apply Hop|].
      apply (thriving_same c0 w); trivial.
    - destruct Hw as ((Hs & Hm & Hb) & Hg).
      split; [|destruct ch; exact Hg].
      split; [destruct ch; exact Hs|]. split; [destruct ch; exact Hm|].
      intros ch' func' Hin.
      destruct ch, ch'; simpl in Hin; try (apply Hb; exact Hin);
        unfold add in Hin; apply in_app_or in Hin as [Hin|[<-|[]]];
        try (apply Hb; exact Hin); intros args; apply Hop.
    - destruct (isPending handle w); trivial.
      apply thriving_onFrame.
      + destruct (Hnow eq_refl) as (l & Hl & Hle). now exists l.
      + apply (thriving_same c0 w); trivial.
    - now apply thriving_onFrame.
    - apply (thriving_same c0 w); trivial. }
  destruct (step depth fuel op w) as [[] w1]; simpl in *; auto.
Qed.

(** C2. [currentTick] never decreases, whatever is done to the ticker.
    [currentTime] never decreases as long as the time scale is kept
    finite and not negative, [maxInterval] is unbounded or positive, and
    no frame callback comes with the clock behind [lastTimeUpdated]. *)
Theorem counters_never_decrease (depth fuel : nat) (ops : list Op) (w : World) :
  let w' := snd (lifetime depth fuel ops w) in
  (_currentTick (ticker w) <= _currentTick (ticker w'))%N /\
  (paced w -> Forall benignOp ops -> timely depth fuel ops w ->
   forall c, _currentTime (ticker w) = Fin c ->
   exists c', _currentTime (ticker w') = Fin c' /\ c <= c').
Proof.
  split; [apply currentTick_never_decreases|].
  intros Hp Hops Ht c Hc.
  destruct (thriving_lifetime c depth fuel ops Hops w Ht) as (_ & Hg); [|exact Hg].
  split; [exact Hp|]. exists c. split; [exact Hc|lra].
Qed.

(** With the time scale set to [-1], the tick of the frame that comes
    16 ms after the start takes [currentTime] from 0 to -16. *)
Lemma currentTime_decreases_under_negative_timeScale :
  let w := freshTicker in
  let w' := snd (lifetime 0 0 [AssignTimeScale (ofZ (-1)); SetClock 16; Frame 1] w) in
  _currentTick (ticker w') = 1%N /\
  (_currentTime (ticker w') <? _currentTime (ticker w))%num = true.
Proof. vm_compute. repeat split. Qed.

(** So does a frame that comes after the clock has been set back: the
    elapsed time is negative. *)
Lemma currentTime_decreases_when_clock_is_set_back :
  let w := snd (constructor (runScript 0) NaN NaN false (lenientWindow 100)) in
  let w' := snd (lifetime 0 0 [SetClock 95; Frame 1] w) in
  _currentTick (ticker w') = 1%N /\
  (_currentTime (ticker w') <? _currentTime (ticker w))%num = true.
Proof. vm_compute. repeat split. Qed.

(** And so does a negative [minFPS]: [maxInterval] and [interval] are
    negative, each tick takes time away, and the loop does not end. *)
Lemma currentTime_decreases_under_negative_minFPS :
  let w := snd (constructor (runScript 0) NaN (ofZ (-100)) false (lenientWindow 0)) in
  let c := lifetime 0 3 [SetClock 16; Frame 1] w in
  fst c = Hung /\
  (_currentTime (ticker (snd c)) <? _currentTime (ticker w))%num = true.
Proof. vm_compute. repeat split. Qed.

Lemma counters_never_decrease_witness :
  let w := freshTicker in
  let ops := [AssignTimeScale (ofZ 2); SetClock 16; Frame 1; Pause;
              SetClock 40; Resume; SetClock 50; Frame 2] in
  let w' := snd (lifetime 1 1 ops w) in
  paced w /\ Forall benignOp ops /\ timely 1 1 ops w /\
  _currentTime (ticker w) = Fin 0 /\
  (_currentTick (ticker w) <= _currentTick (ticker w'))%N /\
  exists c', _currentTime (ticker w') = Fin c' /\ 0 <= c'.
Proof.
  intros w ops w'.
  assert (Hp : paced w).
  { repeat split.
    - exists 1. split; [reflexivity|discriminate].
    - now left.
    - intros [] func []. }
  assert (Hops : Forall benignOp ops).
  { repeat constructor. exists 2. split; [reflexivity|discriminate]. }
  assert (Ht : timely 1 1 ops w).
  { repeat split.
    - intros _. exists 0. split; [reflexivity|discriminate].
    - intros _. exists 40. split; [reflexivity|discriminate]. }
  destruct (counters_never_decrease 1 1 ops w) as [Htick Htime].
  split; [exact Hp|]. split; [exact Hops|]. split; [exact Ht|].
  split; [reflexivity|]. split; [exact Htick|].
  exact (Htime Hp Hops Ht 0 eq_refl).
Defined.

(** ** The time scale and the ticks *)

Lemma alike_fields w1 w2 :
  alike w1 w2 ->
  _isRunning (ticker w1) = _isRunning (ticker w2) /\
  _currentTick (ticker w1) = _currentTick (ticker w2) /\
  _lastTimeUpdated (ticker w1) = _lastTimeUpdated (ticker w2) /\
  _minInterval (ticker w1) = _minInterval (ticker w2) /\
  _maxInterval (ticker w1) = _maxInterval (ticker w2) /\
  _now (ticker w1) = _now (ticker w2) /\
  _frameDeltaTime (ticker w1) = _frameDeltaTime (ticker w2) /\
  _interval (ticker w1) = _interval (ticker w2) /\
  (forall ch, signal ch (ticker w1) = signal ch (ticker w2)) /\
  _animationFrameHandle (ticker w1) = _animationFrameHandle (ticker w2) /\
  window w1 = window w2.
Proof.
  unfold alike, visible. intros H. injection H. intros.
  repeat split; trivial. intros []; assumption.
Qed.

Ltac alike_step H :=
  unfold alike, visible, getTimer in *; cbn in *; rewrite ?map_app; cbn;
  injection H; intros; congruence.

Ltac blind_step H :=
  let ch := fresh "ch" in let func := fresh "func" in let Hin := fresh "Hin" in
  intros ch func Hin; apply (H ch func); destruct ch; cbn in *; trivial; try contradiction.

Ltac akin_step H :=
  let Ha := fresh "Ha" in let Hb := fresh "Hb" in
  destruct H as [Ha Hb]; split; [alike_step Ha|blind_step Hb].

Lemma akin_ret w1 w2 : akin w1 w2 -> akinC (ret w1) (ret w2).
Proof. now split. Qed.

Lemma bind_akin c1 c2 k1 k2 :
  akinC c1 c2 ->
  (forall w1 w2, akin w1 w2 -> akinC (k1 w1) (k2 w2)) ->
  akinC (bind c1 k1) (bind c2 k2).
Proof.
  destruct c1 as [o1 w1], c2 as [o2 w2]. intros [Ho Hw] Hk. simpl in Ho. subst o2.
  destruct o1; simpl; [now apply Hk|now split|now split].
Qed.

Lemma observe_alike w1 w2 :
  alike w1 w2 -> unscaled (observe w1) = unscaled (observe w2).
Proof.
  intros H. unfold alike, visible in H. unfold unscaled, observe. simpl.
  injection H. intros. congruence.
Qed.

Lemma callEach_akin run ch args1 args2 functions w1 w2 :
  respects run -> blind args1 = blind args2 ->
  Forall timeBlind functions -> akin w1 w2 ->
  akinC (callEach run ch args1 functions w1) (callEach run ch args2 functions w2).
Proof.
  intros Hrun Hargs Hf. revert w1 w2.
  induction Hf as [|func rest Hfunc _ IH]; intros w1 w2 Hw; simpl.
  - now apply akin_ret.
  - apply bind_akin; [|exact IH].
    rewrite (Hfunc (observe w1) (observe w2) args1 args2
               (observe_alike w1 w2 (proj1 Hw)) Hargs).
    apply Hrun. akin_step Hw.
Qed.

Lemma dispatch_akin run ch args1 args2 w1 w2 :
  respects run -> blind args1 = blind args2 -> akin w1 w2 ->
  akinC (dispatch run ch args1 w1) (dispatch run ch args2 w2).
Proof.
  intros Hrun Hargs Hw. unfold dispatch.
  destruct (alike_fields w1 w2 (proj1 Hw)) as (Hr & _ & _ & _ & _ & _ & _ & _ & Hs & _).
  rewrite <- (Hs ch), <- Hr.
  apply callEach_akin; trivial.
  - apply Forall_forall. intros func Hin. destruct Hw as [_ Hb]. now apply (Hb ch).
  - akin_step Hw.
Qed.

Opaque num_add num_sub num_mul num_div num_le num_ge Math_min.

Lemma animateOnce_akin w1 w2 :
  akin w1 w2 -> akinC (animateOnce w1) (animateOnce w2).
Proof.
  intros Hw. unfold animateOnce.
  destruct (alike_fields w1 w2 (proj1 Hw))
    as (_ & _ & _ & _ & _ & _ & _ & _ & _ & Hh & Hwin).
  rewrite <- Hh.
  apply bind_akin.
  - destruct (_animationFrameHandle (ticker w1)) as [h|]; [|now apply akin_ret].
    destruct (truthy (Some h)); [|now apply akin_ret].
    unfold clearAnimationFrame. rewrite <- Hwin.
    destruct (hasClearAnimationFrame (window w1)).
    + apply akin_ret. akin_step Hw.
    + now split.
  - intros w3 w4 Hw34.
    change (akinC
              (ret (withTicker
                      (set_animationFrameHandle (Some (fst (requestAnimationFrame w3))))
                      (snd (requestAnimationFrame w3))))
              (ret (withTicker
                      (set_animationFrameHandle (Some (fst (requestAnimationFrame w4))))
                      (snd (requestAnimationFrame w4))))).
    apply akin_ret. akin_step Hw34.
Qed.

Lemma resume_akin run w1 w2 :
  respects run -> akin w1 w2 -> akinC (resume run w1) (resume run w2).
Proof.
  intros Hrun Hw. unfold resume.
  destruct (alike_fields w1 w2 (proj1 Hw)) as (Hr & _).
  rewrite <- Hr. destruct (negb (_isRunning (ticker w1))); [|now apply akin_ret].
  apply bind_akin.
  - apply dispatch_akin; trivial. akin_step Hw.
  - apply animateOnce_akin.
Qed.

Lemma pause_akin run w1 w2 :
  respects run -> akin w1 w2 -> akinC (pause run w1) (pause run w2).
Proof.
  intros Hrun Hw. unfold pause.
  destruct (alike_fields w1 w2 (proj1 Hw)) as (Hr & _).
  rewrite <- Hr.
  apply bind_akin.
  - destruct (_isRunning (ticker w1)); [|now apply akin_ret].
    apply dispatch_akin; trivial. akin_step Hw.
  - intros w3 w4 Hw34.
    destruct (alike_fields w3 w4 (proj1 Hw34))
      as (_ & _ & _ & _ & _ & _ & _ & _ & _ & Hh & _).
    rewrite <- Hh.
    destruct (_animationFrameHandle (ticker w3)) as [h|]; [|now apply akin_ret].
    destruct (truthy (Some h)); [|now apply akin_ret].
    apply akin_ret. akin_step Hw34.
Qed.

Lemma dispose_akin run w1 w2 :
  respects run -> akin w1 w2 -> akinC (dispose run w1) (dispose run w2).
Proof.
  intros Hrun Hw. unfold dispose.
  apply bind_akin; [now apply pause_akin|].
  intros w3 w4 Hw34. apply akin_ret. akin_step Hw34.
Qed.

Lemma set_timeScale_value_akin v1 v2 w1 w2 :
  akin w1 w2 -> akin (set_timeScale_value v1 w1) (set_timeScale_value v2 w2).
Proof.
  intros Hw. unfold set_timeScale_value.
  destruct (negb (strictEq (_timeScale (ticker w1)) v1)),
           (negb (strictEq (_timeScale (ticker w2)) v2)); akin_step Hw.
Qed.

Lemma perform_akin run a w1 w2 :
  respects run -> akin w1 w2 -> akinC (perform run a w1) (perform run a w2).
Proof.
  intros Hrun Hw. destruct a; simpl.
  - now apply resume_akin.
  - now apply pause_akin.
  - now apply dispose_akin.
  - apply akin_ret. now apply set_timeScale_value_akin.
  - apply akin_ret. akin_step Hw.
Qed.

Lemma runScript_respects depth : respects (runScript depth).
Proof.
  induction depth as [|d IH]; intros script.
  - intros w1 w2 Hw. destruct script; simpl; [now apply akin_ret|now split].
  - induction script as [|a rest IHs]; intros w1 w2 Hw; simpl.
    + now apply akin_ret.
    + apply bind_akin; [now apply perform_akin|exact IHs].
Qed.

Lemma tickBump_akin t1 t2 w1 w2 :
  akin w1 w2 -> akin (tickBump t1 w1) (tickBump t2 w2).
Proof. intros Hw. akin_step Hw. Qed.

Lemma snapshot_blind w1 w2 :
  alike w1 w2 ->
  blind (Some (snapshot (ticker w1))) = blind (Some (snapshot (ticker w2))).
Proof.
  intros Hw. destruct (alike_fields w1 w2 Hw) as (_ & Hn & _).
  unfold snapshot, currentTick. simpl. now rewrite Hn.
Qed.

(** A tick, whatever time it adds. *)
Lemma update_akin depth t1 t2 flag w1 w2 :
  akin w1 w2 ->
  akinC (update (runScript depth) t1 flag w1) (update (runScript depth) t2 flag w2).
Proof.
  intros Hw. unfold update. fold (tickBump t1 w1) (tickBump t2 w2).
  pose proof (tickBump_akin t1 t2 w1 w2 Hw) as H3.
  apply bind_akin.
  - apply dispatch_akin; trivial; [apply runScript_respects|].
    apply snapshot_blind, H3.
  - intros w3 w4 Hw34. destruct flag; [|now apply akin_ret].
    apply dispatch_akin; trivial; [apply runScript_respects|].
    apply snapshot_blind, Hw34.
Qed.

Lemma behind_alike w1 w2 : alike w1 w2 -> behind w1 = behind w2.
Proof.
  intros Hw. destruct (alike_fields w1 w2 Hw) as (_ & _ & Hl & _ & _ & Hn & _ & Hi & _).
  unfold behind. now rewrite Hl, Hn, Hi.
Qed.

Lemma visualFrame_alike w1 w2 : alike w1 w2 -> visualFrame w1 = visualFrame w2.
Proof.
  intros Hw. destruct (alike_fields w1 w2 Hw) as (_ & _ & Hl & _ & Hm & Hn & _).
  unfold visualFrame. now rewrite Hl, Hn, Hm.
Qed.

Lemma catchUp_akin depth fuel w1 w2 :
  akin w1 w2 ->
  akinC (catchUp (runScript depth) fuel w1) (catchUp (runScript depth) fuel w2).
Proof.
  revert w1 w2. induction fuel as [|fuel IH]; intros w1 w2 Hw;
    pose proof (behind_alike w1 w2 (proj1 Hw)) as Hb;
    destruct (behind w2) eqn:Hb2.
  - rewrite !catchUp_hung by assumption. now split.
  - rewrite !catchUp_done by assumption. now apply akin_ret.
  - rewrite !catchUp_more by assumption.
    rewrite (visualFrame_alike w1 w2 (proj1 Hw)).
    apply bind_akin; [now apply update_akin|].
    intros w3 w4 Hw34. apply IH. unfold advance. akin_step Hw34.
  - rewrite !catchUp_done by assumption. now apply akin_ret.
Qed.

Lemma reRegister_akin w1 w2 : akin w1 w2 -> akinC (reRegister w1) (reRegister w2).
Proof.
  intros Hw. unfold reRegister.
  destruct (alike_fields w1 w2 (proj1 Hw)) as (Hr & _). rewrite <- Hr.
  destruct (_isRunning (ticker w1)); [now apply animateOnce_akin|now apply akin_ret].
Qed.

Lemma clockRead_akin w1 w2 : akin w1 w2 -> akin (clockRead w1) (clockRead w2).
Proof. intros Hw. unfold clockRead, getTimer. akin_step Hw. Qed.

Lemma onFrame_akin depth fuel w1 w2 :
  akin w1 w2 ->
  akinC (onFrame (runScript depth) fuel w1) (onFrame (runScript depth) fuel w2).
Proof.
  intros Hw. unfold onFrame. fold (clockRead w1) (clockRead w2).
  pose proof (clockRead_akin w1 w2 Hw) as H2.
  destruct (alike_fields _ _ (proj1 H2)) as (_ & _ & _ & Hmin & Hmax & _ & Hfd & _).
  rewrite <- Hmin, <- Hmax, <- Hfd.
  apply bind_akin; [|apply reRegister_akin].
  destruct (_ || _); [|now apply akin_ret].
  destruct (negb _).
  - apply catchUp_akin. akin_step H2.
  - apply bind_akin; [now apply update_akin|].
    intros w3 w4 Hw34. apply akin_ret. akin_step Hw34.
Qed.

Transparent num_add num_sub num_mul num_div num_le num_ge Math_min.

Lemma tickDispatches_shape (tr1 tr2 : list Event) :
  map shapeOf tr1 = map shapeOf tr2 -> tickDispatches tr1 = tickDispatches tr2.
Proof.
  revert tr2. induction tr1 as [|e1 tr1 IH]; intros [|e2 tr2] H; try discriminate; trivial.
  simpl in H. injection H as He H. specialize (IH tr2 H).
  destruct e1 as [ch1 [[[s1 d1] n1]|] r1|ch1 l1 a1|[[s1 d1] n1]],
           e2 as [ch2 [[[s2 d2] n2]|] r2|ch2 l2 a2|[[s2 d2] n2]];
    simpl in He; try discriminate; simpl; trivial.
  injection He as -> -> _. now rewrite IH.
Qed.

Lemma startsWith_log pre e w : startsWith pre w -> startsWith pre (log e w).
Proof.
  intros (evs & Ht). exists (evs ++ [e]). simpl. now rewrite Ht, <- app_assoc.
Qed.

Lemma startsWith_reach pre w w' :
  reach anyAction anyDispatch anyDispatch anyListener w w' ->
  startsWith pre w -> startsWith pre w'.
Proof.
  intros H Hw. destruct H; try exact Hw; now apply startsWith_log.
Qed.

Lemma startsWith_pumps pre w w' :
  pumps (fun _ => True) w w' -> startsWith pre w -> startsWith pre w'.
Proof.
  intros H Hw. destruct H; try exact Hw; now apply startsWith_log.
Qed.

Lemma startsWith_allows pre w ch func :
  startsWith pre w -> In func (signal ch (ticker w)) -> anyListener ch func.
Proof. intros _ _. exact I. Qed.

(** The first event of a tick. *)
Lemma update_starts (depth : nat) (timePassedMS : number) (flag : bool) (w : World) :
  startsWith
    (trace w ++ [Dispatched OnTick (Some (snapshot (ticker (tickBump timePassedMS w))))
                   (_isRunning (ticker w))])
    (snd (update (runScript depth) timePassedMS flag w)).
Proof.
  unfold update. fold (tickBump timePassedMS w).
  apply bind_world.
  - destruct (dispatch_effect depth OnTick
                (Some (snapshot (ticker (tickBump timePassedMS w))))
                (tickBump timePassedMS w)) as (_ & _ & _ & evs & Ht & _).
    exists evs. rewrite Ht. simpl. now rewrite <- app_assoc.
  - intros w4 Hw4. destruct flag; trivial.
    apply (life_dispatch anyListener (startsWith _)); trivial.
    + intros w1 w2. apply startsWith_reach.
    + intros w1 ch func. apply startsWith_allows.
Qed.

(** The first tick of a pass reports its interval times the time scale
    in force when the pass starts. *)
Lemma snapshot_tickBump (timePassedMS : number) (w : World) :
  snapshot (ticker (tickBump timePassedMS w)) = nextTickArgs timePassedMS (ticker w).
Proof. reflexivity. Qed.

Lemma startsWith_catchUp pre depth fuel w :
  startsWith pre w -> startsWith pre (snd (catchUp (runScript depth) fuel w)).
Proof.
  apply (life_catchUp anyListener (fun _ => True) (startsWith pre)).
  - intros w2 w3. apply startsWith_reach.
  - intros w2 w3. apply startsWith_pumps.
  - intros w2 ch func. apply startsWith_allows.
Qed.

Lemma startsWith_reRegister pre w :
  startsWith pre w -> startsWith pre (snd (reRegister w)).
Proof.
  intros (evs & Ht). destruct (reRegister_effect w) as (Ht' & _).
  exists evs. now rewrite Ht'.
Qed.

Lemma onFrame_first_tick (depth fuel : nat) (w : World) (interval : number) :
  firstInterval w = Some interval ->
  (1 <= fuel)%nat ->
  let timePassed := (interval * _timeScale (ticker w))%num in
  startsWith
    (trace w ++ [Dispatched OnTick (Some (nextTickArgs timePassed (ticker w)))
                   (_isRunning (ticker w))])
    (snd (onFrame (runScript depth) fuel w)).
Proof.
  intros Hfirst Hfuel. cbv zeta.
  unfold firstInterval in Hfirst.
  destruct (isNaN (_minInterval (ticker w))
            || (getTimer w - _lastTimeUpdated (ticker w) >=? _minInterval (ticker w))%num)
    eqn:Hgate; [|discriminate].
  destruct (isNaN (_maxInterval (ticker w))) eqn:Hmax; cbn [negb] in Hfirst.
  - injection Hfirst as <-.
    rewrite (onFrame_unbounded _ fuel w Hmax Hgate).
    apply bind_world; [|intros w5; apply startsWith_reRegister].
    apply bind_world.
    + exact (update_starts depth
               ((getTimer w - _lastTimeUpdated (ticker w)) * _timeScale (ticker w))%num
               true (clockRead w)).
    + intros w3 (evs & Ht). now exists evs.
  - destruct (getTimer w >=? _)%num eqn:Hbehind; [|discriminate].
    injection Hfirst as <-.
    rewrite (onFrame_bounded _ fuel w Hmax Hgate).
    apply bind_world; [|intros w5; apply startsWith_reRegister].
    destruct fuel as [|fuel]; [lia|].
    rewrite catchUp_more by exact Hbehind.
    apply bind_world.
    + match goal with
      | |- startsWith _ (snd (update _ ?tp ?flag ?w3)) =>
          exact (update_starts depth tp flag w3)
      end.
    + intros w1 (evs & Ht). apply startsWith_catchUp. now exists evs.
Qed.

(** C4. Two passes of the frame pump from states that differ in the
    time scale only end the same way, dispatch the same ticks on the
    same signals and leave worlds that differ in the time scale and the
    elapsed times only; the first tick after the time scale is assigned
    already reports its interval times the new value.  The listeners are
    taken not to react to the times they are told. *)
Theorem timeScale_changes_times_only (depth fuel : nat) (w : World) (value : number) :
  blindSubscribers w ->
  let c1 := onFrame (runScript depth) fuel w in
  let c2 := onFrame (runScript depth) fuel (withTicker (set_timeScale value) w) in
  fst c1 = fst c2 /\
  tickDispatches (trace (snd c1)) = tickDispatches (trace (snd c2)) /\
  alike (snd c1) (snd c2) /\
  forall interval,
    firstInterval w = Some interval -> (1 <= fuel)%nat ->
    let timePassed := (interval * value)%num in
    startsWith
      (trace w ++ [Dispatched OnTick
                     (Some (nextTickArgs timePassed (ticker w)))
                     (_isRunning (ticker w))])
      (snd c2).
Proof.
  intros Hb c1 c2.
  assert (Hw : akin w (withTicker (set_timeScale value) w)) by (split; [reflexivity|exact Hb]).
  destruct (onFrame_akin depth fuel _ _ Hw) as (Ho & Ha & _).
  fold c1 c2 in Ho, Ha. repeat split; trivial.
  - apply tickDispatches_shape. unfold alike, visible in Ha. now injection Ha.
  - intros interval Hi Hfuel.
    exact (onFrame_first_tick depth fuel (withTicker (set_timeScale value) w)
             interval Hi Hfuel).
Qed.

Lemma pausingAt_blindSubscribers (n : N) : blindSubscribers (pausingAt n).
Proof.
  intros ch func Hin obs1 obs2 args1 args2 _ Hargs.
  destruct ch; simpl in Hin; try contradiction.
  destruct Hin as [<-|[]]. simpl.
  destruct args1 as [[[s1 d1] n1]|], args2 as [[[s2 d2] n2]|];
    simpl in Hargs; try discriminate; trivial.
  now injection Hargs as ->.
Qed.

Lemma timeScale_changes_times_only_witness :
  let w := pausingAt 2 in
  let c1 := onFrame (runScript 1) 3 w in
  let c2 := onFrame (runScript 1) 3 (withTicker (set_timeScale (ofZ 3)) w) in
  blindSubscribers w /\
  fst c1 = fst c2 /\
  tickDispatches (trace (snd c1)) = tickDispatches (trace (snd c2)) /\
  alike (snd c1) (snd c2) /\
  firstInterval w = Some (Fin (1000 # 100)) /\
  (1 <= 3)%nat /\
  let timePassed := (Fin (1000 # 100) * ofZ 3)%num in
  startsWith
    (trace w ++ [Dispatched OnTick
                   (Some (nextTickArgs timePassed (ticker w)))
                   (_isRunning (ticker w))])
    (snd c2).
Proof.
  intros w c1 c2.
  assert (Hb : blindSubscribers w) by apply pausingAt_blindSubscribers.
  assert (Hi : firstInterval w = Some (Fin (1000 # 100))) by (vm_compute; reflexivity).
  assert (Hf : (1 <= 3)%nat) by lia.
  destruct (timeScale_changes_times_only 1 3 w (ofZ 3) Hb) as (H1 & H2 & H3 & H4).
  split; [exact Hb|]. split; [exact H1|]. split; [exact H2|]. split; [exact H3|].
  split; [exact Hi|]. split; [exact Hf|].
  exact (H4 (Fin (1000 # 100)) Hi Hf).
Defined.

(** With such a listener the time scale does change the ticks: told
    20 ms instead of 10, it pauses and resumes, [resume()] moves
    [lastTimeUpdated] to the current time, and the burst of three ticks
    ends after the first. *)
Lemma impatient_listener_ends_the_burst :
  let w := withWindow (setClock 30)
             (withTicker (subscribe OnTick impatientListener) (hundredPerSecondAt 0)) in
  let c1 := onFrame (runScript 1) 3 w in
  let c2 := onFrame (runScript 1) 3 (withTicker (set_timeScale (ofZ 2)) w) in
  fst c1 = Returned /\ fst c2 = Returned /\
  _currentTick (ticker (snd c1)) = 3%N /\
  _currentTick (ticker (snd c2)) = 1%N /\
  tickDispatches (trace (snd c1)) <> tickDispatches (trace (snd c2)).
Proof. vm_compute. repeat split. discriminate. Qed.

(** ** The frame requests of a ticker *)

Lemma tidy_same (w w' : World) : schedule w' = schedule w -> tidy w -> tidy w'.
Proof.
  unfold schedule, tidy. intros H. injection H as -> -> ->. trivial.
Qed.

Lemma tidy_cancelled (h : Z) (w : World) :
  tidy w -> _animationFrameHandle (ticker w) = Some h ->
  frameRequests (window (cancelAnimationFrame h w)) = [].
Proof.
  intros (_ & [H|(h' & _ & H & Hh)]) Hw; simpl; rewrite H; trivial.
  assert (h' = h) by congruence. subst h'. simpl. now rewrite Z.eqb_refl.
Qed.

Lemma tidy_falsy (w : World) :
  tidy w -> truthy (_animationFrameHandle (ticker w)) = false ->
  frameRequests (window w) = [].
Proof.
  intros (_ & [H|(h & Hpos & _ & Hh)]) Hf; trivial.
  rewrite Hh in Hf. simpl in Hf. apply negb_false_iff, Z.eqb_eq in Hf. lia.
Qed.

Lemma tidy_requested (w : World) :
  (0 <= lastHandle (window w))%Z -> frameRequests (window w) = [] ->
  let h := fst (requestAnimationFrame w) in
  let w' := withTicker (set_animationFrameHandle (Some h)) (snd (requestAnimationFrame w)) in
  tidy w' /\ frameRequests (window w') = [h]
  /\ _animationFrameHandle (ticker w') = Some h.
Proof.
  intros Hl Hr. unfold tidy. simpl. rewrite Hr. simpl. repeat split; try lia.
  right. eexists. repeat split. lia.
Qed.

(** [animateOnce], when it returns, leaves exactly one request, that of
    the handle it stores. *)
Lemma animateOnce_returned (w w' : World) :
  tidy w -> animateOnce w = (Returned, w') ->
  tidy w' /\ exists h, frameRequests (window w') = [h]
                       /\ _animationFrameHandle (ticker w') = Some h.
Proof.
  intros Hw H. unfold animateOnce in H.
  apply bind_returned in H as (w1 & H1 & H).
  assert (H1' : (0 <= lastHandle (window w1))%Z /\ frameRequests (window w1) = []).
  { destruct (_animationFrameHandle (ticker w)) as [h|] eqn:Hh.
    - destruct (truthy (Some h)) eqn:Ht.
      + unfold clearAnimationFrame in H1.
        destruct (hasClearAnimationFrame (window w)); [|discriminate].
        injection H1 as <-. split; [apply Hw|]. now apply tidy_cancelled.
      + injection H1 as <-. split; [apply Hw|]. apply tidy_falsy; trivial.
        now rewrite Hh.
    - injection H1 as <-. split; [apply Hw|]. apply tidy_falsy; trivial.
      now rewrite Hh. }
  destruct H1' as (Hl & Hr).
  destruct (tidy_requested w1 Hl Hr) as (Ht & Hq & Hh).
  change (ret (withTicker (set_animationFrameHandle (Some (fst (requestAnimationFrame w1))))
                 (snd (requestAnimationFrame w1))) = (Returned, w')) in H.
  injection H as <-. split; [exact Ht|]. eexists. split; [exact Hq|exact Hh].
Qed.

Lemma tidy_animateOnce (w : World) : tidy w -> tidy (snd (animateOnce w)).
Proof.
  intros Hw. destruct (animateOnce w) as [o w'] eqn:E.
  destruct o.
  - now apply (animateOnce_returned w w').
  - (* a throw leaves the world as it was *)
    unfold animateOnce in E.
    destruct (_animationFrameHandle (ticker w)) as [h|]; [|discriminate].
    destruct (truthy (Some h)); [|discriminate].
    unfold clearAnimationFrame in E.
    destruct (hasClearAnimationFrame (window w)); [discriminate|].
    simpl in E. injection E as _ <-. exact Hw.
  - pose proof (animateOnce_ends w) as He. rewrite E in He. now elim He.
Qed.

(** The end of [pause]: the held handle is cancelled and forgotten. *)
Lemma tidy_unscheduled (w : World) :
  tidy w ->
  let w' := match _animationFrameHandle (ticker w) with
            | Some h =>
                if truthy (Some h)
                then withTicker (set_animationFrameHandle None) (cancelAnimationFrame h w)
                else w
            | None => w
            end in
  tidy w' /\ frameRequests (window w') = []
  /\ truthy (_animationFrameHandle (ticker w')) = false.
Proof.
  intros Hw. destruct (_animationFrameHandle (ticker w)) as [h|] eqn:Hh.
  - destruct (truthy (Some h)) eqn:Ht; cbv zeta.
    + pose proof (tidy_cancelled h w Hw Hh) as Hc.
      repeat split; trivial; [apply Hw|]. left. exact Hc.
    + assert (Hr : frameRequests (window w) = []).
      { apply tidy_falsy; trivial. now rewrite Hh. }
      repeat split; trivial; [apply Hw|now left|now rewrite Hh].
  - cbv zeta. assert (Hr : frameRequests (window w) = []).
    { apply tidy_falsy; trivial. now rewrite Hh. }
    repeat split; trivial; [apply Hw|now left|now rewrite Hh].
Qed.

Section Tidy.

Variable run : Runner.
Hypothesis run_tidy : forall script w, tidy w -> tidy (snd (run script w)).

Lemma tidy_callEach ch args functions w :
  tidy w -> tidy (snd (callEach run ch args functions w)).
Proof.
  revert w. induction functions as [|func rest IH]; intros w Hw; simpl; trivial.
  apply (bind_world tidy); [|exact IH].
  apply run_tidy. exact Hw.
Qed.

Lemma tidy_dispatch ch args w : tidy w -> tidy (snd (dispatch run ch args w)).
Proof. intros Hw. unfold dispatch. now apply tidy_callEach. Qed.

Lemma tidy_resume w : tidy w -> tidy (snd (resume run w)).
Proof.
  intros Hw. unfold resume. destruct (negb (_isRunning (ticker w))); trivial.
  apply (bind_world tidy); [|apply tidy_animateOnce].
  apply tidy_dispatch. exact Hw.
Qed.

Lemma tidy_pause w : tidy w -> tidy (snd (pause run w)).
Proof.
  intros Hw. unfold pause. apply (bind_world tidy).
  - destruct (_isRunning (ticker w)); trivial. apply tidy_dispatch. exact Hw.
  - intros w1 Hw1. pose proof (tidy_unscheduled w1 Hw1) as (H & _).
    destruct (_animationFrameHandle (ticker w1)) as [h|]; trivial.
    destruct (truthy (Some h)); trivial.
Qed.

Lemma tidy_dispose w : tidy w -> tidy (snd (dispose run w)).
Proof.
  intros Hw. unfold dispose. apply (bind_world tidy); [now apply tidy_pause|].
  intros w1 Hw1. exact Hw1.
Qed.

Lemma tidy_perform a w : tidy w -> tidy (snd (perform run a w)).
Proof.
  intros Hw. destruct a; simpl.
  - now apply tidy_resume.
  - now apply tidy_pause.
  - now apply tidy_dispose.
  - unfold set_timeScale_value.
    now destruct (negb (strictEq (_timeScale (ticker w)) value)).
  - exact Hw.
Qed.

End Tidy.

Lemma tidy_runScript depth script w : tidy w -> tidy (snd (runScript depth script w)).
Proof.
  revert script w. induction depth as [|d IH]; intros script.
  - intros w Hw. now destruct script.
  - induction script as [|a rest IHs]; intros w Hw; simpl; trivial.
    apply (bind_world tidy); [|exact IHs].
    now apply tidy_perform.
Qed.

Lemma tidy_update depth timePassedMS flag w :
  tidy w -> tidy (snd (update (runScript depth) timePassedMS flag w)).
Proof.
  intros Hw. unfold update. apply (bind_world tidy).
  - apply tidy_dispatch; [apply tidy_runScript|exact Hw].
  - intros w4 Hw4. destruct flag; trivial.
    apply tidy_dispatch; [apply tidy_runScript|exact Hw4].
Qed.

Lemma tidy_catchUp depth fuel w :
  tidy w -> tidy (snd (catchUp (runScript depth) fuel w)).
Proof.
  revert w. induction fuel as [|fuel IH]; intros w Hw.
  - simpl. now destruct (_ >=? _)%num.
  - destruct (behind w) eqn:Hb.
    + rewrite catchUp_more by exact Hb.
      apply (bind_world tidy); [now apply tidy_update|].
      intros w1 Hw1. apply IH. exact Hw1.
    + now rewrite catchUp_done.
Qed.

Lemma tidy_onFrame depth fuel w :
  tidy w -> tidy (snd (onFrame (runScript depth) fuel w)).
Proof.
  intros Hw. unfold onFrame. fold (clockRead w).
  assert (H2 : tidy (clockRead w)) by exact Hw.
  apply (bind_world tidy).
  - destruct (_ || _); trivial.
    destruct (negb _).
    + now apply tidy_catchUp.
    + apply (bind_world tidy); [now apply tidy_update|].
      intros w3 Hw3. exact Hw3.
  - intros w5 Hw5. destruct (_isRunning (ticker w5)); trivial.
    now apply tidy_animateOnce.
Qed.

Lemma tidy_fired h w : tidy w -> tidy (withWindow (withoutRequest h) w).
Proof.
  intros (Hl & [H|(h' & Hpos & H & Hh)]); split; trivial; simpl; rewrite H; simpl.
  - now left.
  - destruct (negb (h' =? h)%Z); [right; exists h'; repeat split; trivial|now left].
Qed.

Lemma tidy_step depth fuel op w : tidy w -> tidy (snd (step depth fuel op w)).
Proof.
  intros Hw. destruct op; simpl.
  - apply tidy_resume; [apply tidy_runScript|exact Hw].
  - apply tidy_pause; [apply tidy_runScript|exact Hw].
  - apply tidy_dispose; [apply tidy_runScript|exact Hw].
  - unfold set_timeScale_value.
    now destruct (negb (strictEq (_timeScale (ticker w)) value)).
  - unfold updateOnce. apply tidy_runScript. exact Hw.
  - apply (tidy_same w); trivial. now destruct ch.
  - destruct (isPending handle w); trivial.
    apply tidy_onFrame. now apply tidy_fired.
  - now apply tidy_onFrame.
  - exact Hw.
Qed.

(** X1. At any time at most one frame request of the ticker is pending,
    and it is the one whose handle the ticker holds, whatever is called,
    by whom, and in whichever window. *)
Theorem one_frame_request_at_most (depth fuel : nat) (ops : list Op) (w : World) :
  tidy w -> tidy (snd (lifetime depth fuel ops w)).
Proof.
  revert w. induction ops as [|op rest IH]; intros w Hw; simpl; trivial.
  pose proof (tidy_step depth fuel op w Hw) as H1.
  destruct (step depth fuel op w) as [[] w1]; simpl in *; auto.
Qed.

Lemma pause_unschedules (depth : nat) (w w' : World) :
  tidy w -> pause (runScript depth) w = (Returned, w') ->
  frameRequests (window w') = [] /\ truthy (_animationFrameHandle (ticker w')) = false.
Proof.
  intros Hw H. unfold pause in H. apply bind_returned in H as (w1 & H1 & H).
  assert (Hw1 : tidy w1).
  { destruct (_isRunning (ticker w)).
    - pose proof (tidy_dispatch (runScript depth) (tidy_runScript depth) OnPause None
                    (withTicker (set_isRunning false) w) Hw) as Ht.
      now rewrite H1 in Ht.
    - now injection H1 as <-. }
  pose proof (tidy_unscheduled w1 Hw1) as (_ & Hr & Hh). cbv zeta in Hr, Hh.
  destruct (_animationFrameHandle (ticker w1)) as [h|].
  - destruct (truthy (Some h)); injection H as <-; now split.
  - injection H as <-. now split.
Qed.

(** X2. When [pause()] or [dispose()] has returned, no frame request is
    pending and no handle is held, whatever the listeners of the pause
    signal have done, resuming the ticker included. *)
Theorem pause_leaves_no_frame_request (depth : nat) (w w' : World) :
  tidy w ->
  pause (runScript depth) w = (Returned, w')
    \/ dispose (runScript depth) w = (Returned, w') ->
  frameRequests (window w') = [] /\
  truthy (_animationFrameHandle (ticker w')) = false.
Proof.
  intros Hw [H|H].
  - now apply (pause_unschedules depth w).
  - unfold dispose in H. apply bind_returned in H as (w1 & H1 & H).
    injection H as <-. exact (pause_unschedules depth w w1 Hw H1).
Qed.

(** The pause listener has resumed the ticker: it is running when
    [pause()] returns, and no frame will come. *)
Lemma pause_leaves_no_frame_request_witness :
  let w := resumedOnPause in
  let w' := snd (pause (runScript 1) w) in
  tidy w /\
  (pause (runScript 1) w = (Returned, w') \/ dispose (runScript 1) w = (Returned, w')) /\
  (frameRequests (window w') = [] /\
   truthy (_animationFrameHandle (ticker w')) = false) /\
  _isRunning (ticker w') = true.
Proof.
  intros w w'.
  assert (Hw : tidy w).
  { split; [vm_compute; discriminate|]. right. exists 1%Z.
    split; [lia|]. split; vm_compute; reflexivity. }
  assert (Hp : pause (runScript 1) w = (Returned, w')
               \/ dispose (runScript 1) w = (Returned, w')).
  { left. vm_compute. reflexivity. }
  split; [exact Hw|]. split; [exact Hp|]. split; [|vm_compute; reflexivity].
  exact (pause_leaves_no_frame_request 1 w w' Hw Hp).
Defined.

(** X3. When [resume()] returns on a paused ticker, one frame request is
    pending, with the handle the ticker holds, and [lastTimeUpdated] is a
    reading of the clock taken during the call; this whatever the
    listeners of the resume signal have done, pausing the ticker
    included. *)
Theorem resume_requests_a_frame (depth : nat) (w w' : World) :
  tidy w ->
  _isRunning (ticker w) = false ->
  resume (runScript depth) w = (Returned, w') ->
  (exists h, frameRequests (window w') = [h]
             /\ _animationFrameHandle (ticker w') = Some h) /\
  (exists z, _lastTimeUpdated (ticker w') = ofZ z
             /\ (dateNow (window w) <= z <= dateNow (window w'))%Z).
Proof.
  intros Hw Hr H. unfold resume in H. rewrite Hr in H. simpl negb in H. cbv iota zeta in H.
  set (w2 := withTicker (set_lastTimeUpdated (getTimer (withTicker (set_isRunning true) w)))
               (withTicker (set_isRunning true) w)) in H.
  apply bind_returned in H as (w3 & H3 & H).
  assert (Hw3 : tidy w3).
  { pose proof (tidy_dispatch (runScript depth) (tidy_runScript depth) OnResume None
                  w2 Hw) as Ht.
    now rewrite H3 in Ht. }
  destruct (animateOnce_returned w3 w' Hw3 H) as (_ & Hreq).
  split; [exact Hreq|].
  destruct (dispatch_effect depth OnResume None w2) as (_ & Hc & Hl & _).
  rewrite H3 in Hc, Hl. cbn [snd] in Hc, Hl.
  destruct (animateOnce_effect w3) as (_ & Hd & _ & _ & _ & Hl' & _).
  rewrite H in Hd, Hl'. cbn [snd] in Hd, Hl'.
  rewrite Hl', Hd.
  destruct Hl as [Hl|(z & Hz & Hb)].
  - exists (dateNow (window w)). split; [rewrite Hl; reflexivity|].
    change (dateNow (window w2)) with (dateNow (window w)) in Hc. lia.
  - exists z. split; [exact Hz|exact Hb].
Qed.

(** The resume listener has paused the ticker: it is not running when
    [resume()] returns, and a frame will come all the same. *)
Lemma resume_requests_a_frame_witness :
  let w := pausedOnResume in
  let w' := snd (resume (runScript 1) w) in
  tidy w /\
  _isRunning (ticker w) = false /\
  resume (runScript 1) w = (Returned, w') /\
  ((exists h, frameRequests (window w') = [h]
              /\ _animationFrameHandle (ticker w') = Some h) /\
   (exists z, _lastTimeUpdated (ticker w') = ofZ z
              /\ (dateNow (window w) <= z <= dateNow (window w'))%Z)) /\
  _isRunning (ticker w') = false.
Proof.
  intros w w'.
  assert (Hw : tidy w).
  { split; [vm_compute; discriminate|]. left. vm_compute. reflexivity. }
  assert (Hr : _isRunning (ticker w) = false) by (vm_compute; reflexivity).
  assert (H : resume (runScript 1) w = (Returned, w')) by (vm_compute; reflexivity).
  split; [exact Hw|]. split; [exact Hr|]. split; [exact H|].
  split; [|vm_compute; reflexivity].
  exact (resume_requests_a_frame 1 w w' Hw Hr H).
Defined.

Lemma one_frame_request_at_most_witness :
  let w := resumedOnPause in
  let ops := [Pause; Resume; SetClock 16; Frame 3; Resume; StaleFrame] in
  tidy w /\ tidy (snd (lifetime 1 1 ops w)).
Proof.
  intros w ops.
  assert (Hw : tidy w).
  { split; [vm_compute; discriminate|]. right. exists 1%Z.
    split; [lia|]. split; vm_compute; reflexivity. }
  split; [exact Hw|].
  exact (one_frame_request_at_most 1 1 ops w Hw).
Defined.

(** ** The constructor *)

(** X4. [new FrameTicker(maxFPS, minFPS)] returns in any window, with
    or without [clearAnimationFrame]: the ticker is running, its counters
    are zero and its time scale one, [lastTimeUpdated] is the time of the
    call, one dispatch was made on the resume signal, which has no
    listener yet, and one frame is requested, whose handle the ticker
    holds.  With [paused] set nothing is dispatched or requested. *)
Theorem constructor_starts_the_ticker (depth : nat) (maxFPS minFPS : number)
    (win : Window) :
  let h := (lastHandle win + 1)%Z in
  let c := constructor (runScript depth) maxFPS minFPS false win in
  let t := ticker (snd c) in
  fst c = Returned /\
  _isRunning t = true /\
  _timeScale t = ofZ 1 /\
  _currentTick t = 0%N /\ _currentTime t = ofZ 0 /\ _tickDeltaTime t = ofZ 0 /\
  _lastTimeUpdated t = ofZ (dateNow win) /\
  _animationFrameHandle t = Some h /\
  frameRequests (window (snd c)) = frameRequests win ++ [h] /\
  trace (snd c) = [Dispatched OnResume None true] /\
  let c' := constructor (runScript depth) maxFPS minFPS true win in
  fst c' = Returned /\
  _isRunning (ticker (snd c')) = false /\
  window (snd c') = win /\
  trace (snd c') = [].
Proof.
  repeat split.
Qed.

(** ** Ticks over a life *)

Lemma tickless_refl w : tickless w w.
Proof. repeat split. exists []. now rewrite app_nil_r. Qed.

Lemma tickless_trans w1 w2 w3 : tickless w1 w2 -> tickless w2 w3 -> tickless w1 w3.
Proof.
  intros (H1 & H2 & H3 & evs & Ht & He) (H1' & H2' & H3' & evs' & Ht' & He').
  repeat split; try congruence.
  exists (evs ++ evs'). split.
  - now rewrite Ht', Ht, app_assoc.
  - now rewrite tickDispatches_app, He, He'.
Qed.

Lemma quiet_tickless w w' : quiet w w' -> tickless w w'.
Proof.
  intros H. apply quiet_calm in H as (Hp & _ & _ & evs & Ht & He).
  apply pumpState_eq in Hp as (H1 & H2 & H3 & _).
  repeat split; trivial. exists evs. split; trivial. now apply tickDispatches_calm.
Qed.

Lemma tickless_same w w' :
  ticker w' = ticker w -> trace w' = trace w -> tickless w w'.
Proof.
  intros Hk Ht. unfold tickless. rewrite Hk. repeat split.
  exists []. now rewrite app_nil_r.
Qed.

(** The calls on the public interface, as operations. *)
Lemma perform_tickless depth a w : tickless w (snd (perform (runScript depth) a w)).
Proof.
  apply quiet_tickless.
  pose proof (runScript_quiet (S depth) [a] w) as H.
  simpl in H. now rewrite bind_ret in H.
Qed.

Lemma step_tickless depth fuel op w :
  notFrame op -> tickless w (snd (step depth fuel op w)).
Proof.
  intros Hop. destruct op; simpl; try contradiction.
  - apply (perform_tickless depth CallResume).
  - apply (perform_tickless depth CallPause).
  - apply (perform_tickless depth CallDispose).
  - apply (perform_tickless depth (SetTimeScale value)).
  - unfold updateOnce.
    apply tickless_trans with (log (CallbackInvoked (snapshot (ticker w))) w).
    + repeat split. now exists [CallbackInvoked (snapshot (ticker w))].
    + apply quiet_tickless, runScript_quiet.
  - repeat split; try (now destruct ch). exists []. now rewrite app_nil_r.
  - now apply tickless_same.
Qed.

(** X5. The counters move and the tick signals are dispatched in frame
    callbacks only: [resume()], [pause()], [dispose()], [updateOnce()],
    assignments of [timeScale], subscriptions and the passing of time
    leave [currentTick], [currentTime] and [tickDeltaTime] as they are
    and dispatch nothing on the tick signals, whatever the listeners and
    callbacks do. *)
Theorem only_frames_tick (depth fuel : nat) (ops : list Op) (w : World) :
  Forall notFrame ops ->
  let w' := snd (lifetime depth fuel ops w) in
  _currentTick (ticker w') = _currentTick (ticker w) /\
  _currentTime (ticker w') = _currentTime (ticker w) /\
  _tickDeltaTime (ticker w') = _tickDeltaTime (ticker w) /\
  exists evs, trace w' = trace w ++ evs /\ tickDispatches evs = [].
Proof.
  intros Hops. change (tickless w (snd (lifetime depth fuel ops w))).
  revert w. induction Hops as [|op rest Hop _ IH]; intros w; simpl.
  - apply tickless_refl.
  - pose proof (step_tickless depth fuel op w Hop) as H1.
    destruct (step depth fuel op w) as [[] w1]; simpl in *;
      try exact H1; eapply tickless_trans; eauto.
Qed.

Lemma only_frames_tick_witness :
  let w := resumedOnPause in
  let ops := [Pause; AssignTimeScale (ofZ 2); SetClock 40;
              UpdateOnce (fun _ _ => [CallPause; CallResume]); Dispose; Resume] in
  Forall notFrame ops /\
  let w' := snd (lifetime 2 1 ops w) in
  _currentTick (ticker w') = _currentTick (ticker w) /\
  _currentTime (ticker w') = _currentTime (ticker w) /\
  _tickDeltaTime (ticker w') = _tickDeltaTime (ticker w) /\
  exists evs, trace w' = trace w ++ evs /\ tickDispatches evs = [].
Proof.
  intros w ops.
  assert (Hops : Forall notFrame ops) by (repeat constructor).
  split; [exact Hops|].
  exact (only_frames_tick 2 1 ops w Hops).
Defined.

Lemma numbered_app (a b : N) (l1 l2 : list (Channel * N)) :
  numbered a l1 = Some b -> numbered a (l1 ++ l2) = numbered b l2.
Proof.
  revert a. induction l1 as [|[ch n] l1 IH]; intros a H; simpl in *.
  - now injection H as ->.
  - destruct ch; try discriminate.
    + destruct (n =? a + 1)%N; [now apply IH|discriminate].
    + destruct (n =? a)%N; [now apply IH|discriminate].
Qed.

Lemma inOrder_refl w : inOrder w w.
Proof. exists []. now rewrite app_nil_r. Qed.

Lemma inOrder_trans w1 w2 w3 : inOrder w1 w2 -> inOrder w2 w3 -> inOrder w1 w3.
Proof.
  intros (evs & Ht & He) (evs' & Ht' & He').
  exists (evs ++ evs'). split.
  - now rewrite Ht', Ht, app_assoc.
  - rewrite tickDispatches_app. now rewrite (numbered_app _ _ _ _ He).
Qed.

Lemma tickless_inOrder w w' : tickless w w' -> inOrder w w'.
Proof.
  intros (H1 & _ & _ & evs & Ht & He). exists evs. split; trivial.
  rewrite He, H1. reflexivity.
Qed.

Lemma inOrder_same w w' :
  _currentTick (ticker w') = _currentTick (ticker w) -> trace w' = trace w ->
  inOrder w w'.
Proof.
  intros Hk Ht. exists []. rewrite Ht, app_nil_r, Hk. now split.
Qed.

Lemma bind_inOrder w c k :
  inOrder w (snd c) -> (forall w1, inOrder w1 (snd (k w1))) -> inOrder w (snd (bind c k)).
Proof.
  intros Hc Hk. destruct c as [[] w1]; simpl in *; trivial.
  eapply inOrder_trans; [exact Hc|apply Hk].
Qed.

Lemma update_inOrder depth timePassedMS flag w :
  inOrder w (snd (update (runScript depth) timePassedMS flag w)).
Proof.
  destruct (update_effect depth timePassedMS flag w) as (Hp & _ & _ & evs & Ht & He).
  apply pumpState_eq in Hp as (H1 & _).
  exists evs. split; [exact Ht|].
  rewrite He, H1. simpl. rewrite N.eqb_refl.
  destruct (flag && _); simpl; [now rewrite N.eqb_refl|reflexivity].
Qed.

Lemma catchUp_inOrder depth fuel w :
  inOrder w (snd (catchUp (runScript depth) fuel w)).
Proof.
  revert w. induction fuel as [|fuel IH]; intros w.
  - simpl. destruct (_ >=? _)%num; apply inOrder_refl.
  - destruct (behind w) eqn:Hb.
    + rewrite catchUp_more by exact Hb.
      apply bind_inOrder; [apply update_inOrder|].
      intros w1. eapply inOrder_trans; [|apply IH]. now apply inOrder_same.
    + rewrite catchUp_done by exact Hb. apply inOrder_refl.
Qed.

Lemma reRegister_inOrder w : inOrder w (snd (reRegister w)).
Proof.
  destruct (reRegister_effect w) as (Ht & _ & Hp & _).
  apply pumpState_eq in Hp as (H1 & _). now apply inOrder_same.
Qed.

Lemma onFrame_inOrder depth fuel w :
  inOrder w (snd (onFrame (runScript depth) fuel w)).
Proof.
  unfold onFrame. fold (clockRead w).
  apply inOrder_trans with (clockRead w); [now apply inOrder_same|].
  apply bind_inOrder; [|intros w5; apply reRegister_inOrder].
  destruct (_ || _); [|apply inOrder_refl].
  destruct (negb _).
  - eapply inOrder_trans; [|apply catchUp_inOrder]. now apply inOrder_same.
  - apply bind_inOrder; [apply update_inOrder|].
    intros w3. now apply inOrder_same.
Qed.

Lemma step_inOrder depth fuel op w : inOrder w (snd (step depth fuel op w)).
Proof.
  destruct op; try (apply tickless_inOrder, step_tickless; exact I); simpl.
  - destruct (isPending handle w); [|apply inOrder_refl].
    eapply inOrder_trans; [|apply onFrame_inOrder]. now apply inOrder_same.
  - apply onFrame_inOrder.
Qed.

(** X6. Through any life of a ticker the dispatches on the tick signal
    carry the tick indices in order, each the index of the one before
    plus one, starting after [currentTick]; every dispatch on the
    once-per-frame signal carries the index of the tick it follows; and
    [currentTick] ends as the last index dispatched. *)
Theorem ticks_are_numbered_in_order (depth fuel : nat) (ops : list Op) (w : World) :
  let w' := snd (lifetime depth fuel ops w) in
  exists evs, trace w' = trace w ++ evs /\
    numbered (_currentTick (ticker w)) (tickDispatches evs)
      = Some (_currentTick (ticker w')).
Proof.
  change (inOrder w (snd (lifetime depth fuel ops w))).
  revert w. induction ops as [|op rest IH]; intros w; simpl.
  - apply inOrder_refl.
  - pose proof (step_inOrder depth fuel op w) as H1.
    destruct (step depth fuel op w) as [[] w1]; simpl in *;
      try exact H1; eapply inOrder_trans; eauto.
Qed.

(** ** A paused ticker *)

Lemma asleep_same w0 w w' :
  _isRunning (ticker w') = _isRunning (ticker w) ->
  frameRequests (window w') = frameRequests (window w) ->
  _currentTick (ticker w') = _currentTick (ticker w) ->
  _currentTime (ticker w') = _currentTime (ticker w) ->
  _tickDeltaTime (ticker w') = _tickDeltaTime (ticker w) ->
  trace w' = trace w ->
  asleep w0 w -> asleep w0 w'.
Proof.
  intros Hr Hq H1 H2 H3 Ht ((Hd1 & Hd2) & Hc1 & Hc2 & Hc3 & Hev).
  unfold asleep, dormant. rewrite Hr, Hq, H1, H2, H3, Ht. repeat split; assumption.
Qed.

(** [pause()] on a dormant ticker dispatches nothing. *)
Lemma asleep_pause run w0 w : asleep w0 w -> asleep w0 (snd (pause run w)).
Proof.
  intros Hw. pose proof Hw as ((Hr & Hq) & _).
  unfold pause. rewrite Hr. simpl bind.
  destruct (_animationFrameHandle (ticker w)) as [h|]; [|exact Hw].
  simpl truthy. destruct (negb (h =? 0)%Z); [|exact Hw].
  simpl. apply (asleep_same w0 w); trivial. simpl. now rewrite Hq.
Qed.

Lemma asleep_perform run w0 a w :
  noResume a = true -> asleep w0 w -> asleep w0 (snd (perform run a w)).
Proof.
  intros Ha Hw. destruct a; try discriminate; simpl.
  - now apply asleep_pause.
  - unfold dispose.
    pose proof (asleep_pause run w0 w Hw) as Hp.
    destruct (pause run w) as [[] w1]; simpl in *; trivial.
  - unfold set_timeScale_value.
    destruct (negb (strictEq (_timeScale (ticker w)) value)); exact Hw.
  - exact Hw.
Qed.

Lemma asleep_runScript depth w0 script w :
  forallb noResume script = true -> asleep w0 w ->
  asleep w0 (snd (runScript depth script w)).
Proof.
  destruct depth as [|d].
  - intros _ Hw. now destruct script.
  - revert w. induction script as [|a rest IH]; intros w Hs Hw; simpl; trivial.
    simpl in Hs. apply andb_true_iff in Hs as [Ha Hs].
    apply (bind_world (asleep w0)); [now apply asleep_perform|].
    intros w1 Hw1. now apply IH.
Qed.

Lemma asleep_step depth fuel w0 op w :
  letsSleep op -> asleep w0 w -> asleep w0 (snd (step depth fuel op w)).
Proof.
  intros Hop Hw. pose proof Hw as ((Hr & Hq) & _).
  destruct op; simpl; try contradiction.
  - now apply (asleep_perform (runScript depth) w0 CallPause).
  - now apply (asleep_perform (runScript depth) w0 CallDispose).
  - now apply (asleep_perform (runScript depth) w0 (SetTimeScale value)).
  - unfold updateOnce. apply asleep_runScript; [apply Hop|].
    destruct Hw as (Hd & H1 & H2 & H3 & evs & Ht & He).
    repeat split; trivial.
    exists (evs ++ [CallbackInvoked (snapshot (ticker w))]). split.
    + simpl. now rewrite Ht, app_assoc.
    + rewrite forallb_app, He. reflexivity.
  - apply (asleep_same w0 w); trivial; now destruct ch.
  - unfold isPending. rewrite Hq. exact Hw.
  - now apply (asleep_same w0 w).
Qed.

(** X7. A ticker that is paused with no frame requested, as the
    constructor leaves it when [paused] is set, stays so until
    [resume()] is called: whatever else is called, subscribed or
    assigned, and whatever frame handles the host serves, nothing is
    dispatched, no listener is called and the counters do not move. *)
Theorem paused_ticker_stays_silent (depth fuel : nat) (ops : list Op) (w : World) :
  dormant w ->
  Forall letsSleep ops ->
  let w' := snd (lifetime depth fuel ops w) in
  dormant w' /\
  _currentTick (ticker w') = _currentTick (ticker w) /\
  _currentTime (ticker w') = _currentTime (ticker w) /\
  _tickDeltaTime (ticker w') = _tickDeltaTime (ticker w) /\
  exists evs, trace w' = trace w ++ evs /\ forallb isCallback evs = true.
Proof.
  intros Hd Hops. change (asleep w (snd (lifetime depth fuel ops w))).
  assert (H0 : asleep w w).
  { repeat split; try apply Hd. exists []. now rewrite app_nil_r. }
  revert H0. generalize w at 2 4 as w1.
  induction Hops as [|op rest Hop _ IH]; intros w1 Hw1; simpl; trivial.
  pose proof (asleep_step depth fuel w op w1 Hop Hw1) as H1.
  destruct (step depth fuel op w1) as [[] w2]; simpl in *; auto.
Qed.

Lemma paused_ticker_stays_silent_witness :
  let w := startedPaused in
  let ops := [SetClock 16; Frame 1; Pause; AssignTimeScale (ofZ 2);
              UpdateOnce (fun _ _ => [CallPause; Elapse 3]);
              Subscribe OnPause (mkListener 2 (fun _ _ => [CallResume])); Dispose] in
  dormant w /\
  Forall letsSleep ops /\
  let w' := snd (lifetime 1 1 ops w) in
  dormant w' /\
  _currentTick (ticker w') = _currentTick (ticker w) /\
  _currentTime (ticker w') = _currentTime (ticker w) /\
  _tickDeltaTime (ticker w') = _tickDeltaTime (ticker w) /\
  exists evs, trace w' = trace w ++ evs /\ forallb isCallback evs = true.
Proof.
  intros w ops.
  assert (Hd : dormant w) by (split; vm_compute; reflexivity).
  assert (Hops : Forall letsSleep ops).
  { repeat constructor. }
  split; [exact Hd|]. split; [exact Hops|].
  exact (paused_ticker_stays_silent 1 1 ops w Hd Hops).
Defined.

(** ** dispose, twice *)

Lemma pause_when_settled (run : Runner) (w : World) :
  _isRunning (ticker w) = false ->
  truthy (_animationFrameHandle (ticker w)) = false ->
  pause run w = (Returned, w).
Proof.
  intros Hr Hh. unfold pause. rewrite Hr. simpl bind.
  destruct (_animationFrameHandle (ticker w)) as [h|]; trivial.
  simpl in Hh |- *. now rewrite Hh.
Qed.

(** X8. [dispose()] on an instance that [dispose()] has left paused
    changes nothing and dispatches nothing; so does [pause()]. *)
Theorem dispose_twice (run run' : Runner) (w w' : World) :
  dispose run w = (Returned, w') ->
  _isRunning (ticker w') = false ->
  dispose run' w' = (Returned, w') /\ pause run' w' = (Returned, w').
Proof.
  intros Hd Hr. apply dispose_returned in Hd as (H1 & H2 & H3 & Hh).
  assert (Hp : pause run' w' = (Returned, w')) by now apply pause_when_settled.
  split; [|exact Hp].
  unfold dispose. rewrite Hp. simpl.
  destruct w' as [[] win tr]. simpl in *. subst. reflexivity.
Qed.

Lemma dispose_twice_witness :
  let w := subscribedTicker in
  let w' := disposedTicker in
  dispose (runScript 1) w = (Returned, w') /\
  _isRunning (ticker w') = false /\
  dispose (runScript 1) w' = (Returned, w') /\ pause (runScript 1) w' = (Returned, w').
Proof.
  intros w w'.
  assert (Hd : dispose (runScript 1) w = (Returned, w')) by (vm_compute; reflexivity).
  assert (Hr : _isRunning (ticker w') = false) by (vm_compute; reflexivity).
  split; [exact Hd|]. split; [exact Hr|].
  exact (dispose_twice (runScript 1) (runScript 1) w w' Hd Hr).
Defined.

(** ** Frames in a window without clearAnimationFrame *)









(** ** A rate cap of zero *)

Lemma idle_trans w1 w2 w3 : idle w1 w2 -> idle w2 w3 -> idle w1 w3.
Proof.
  intros (Ht & Hm & Hl) (Ht' & Hm' & Hl'). repeat split.
  1-4: eapply tickless_trans; eassumption.
  - congruence.
  - destruct Hl' as [Hl'|Hl']; [rewrite Hl'; exact Hl|now right].
Qed.

Lemma quiet_idle w w' : quiet w w' -> idle w w'.
Proof.
  intros H. pose proof (quiet_tickless w w' H) as Ht.
  destruct H as (Hp & _ & Hl & _).
  apply pumpState_eq in Hp as (_ & _ & _ & Hm & _).
  repeat split; try apply Ht; trivial.
  destruct Hl as [Hl|(z & Hz & _)]; [now left|right; now exists z].
Qed.

Lemma perform_idle depth a w : idle w (snd (perform (runScript depth) a w)).
Proof.
  apply quiet_idle.
  pose proof (runScript_quiet (S depth) [a] w) as H.
  simpl in H. now rewrite bind_ret in H.
Qed.

Lemma step_idle depth fuel op w : notFrame op -> idle w (snd (step depth fuel op w)).
Proof.
  intros Hop. pose proof (step_tickless depth fuel op w Hop) as Ht.
  destruct op; simpl in *; try contradiction.
  - apply (perform_idle depth CallResume).
  - apply (perform_idle depth CallPause).
  - apply (perform_idle depth CallDispose).
  - apply (perform_idle depth (SetTimeScale value)).
  - unfold updateOnce in *.
    pose proof (quiet_idle _ _ (runScript_quiet depth
                  (callback (observe w) (snapshot (ticker w)))
                  (log (CallbackInvoked (snapshot (ticker w))) w))) as (_ & Hm & Hl).
    repeat split; try apply Ht; trivial.
  - repeat split; try apply Ht; destruct ch; trivial; now left.
  - repeat split; try apply Ht; trivial. now left.
Qed.

(** With an infinite [minInterval] no frame passes the gate. *)
Lemma onFrame_frozen (run : Runner) (fuel : nat) (w : World) :
  _minInterval (ticker w) = PosInf ->
  _lastTimeUpdated (ticker w) <> NegInf ->
  onFrame run fuel w = reRegister (clockRead w).
Proof.
  intros Hm Hl. unfold onFrame. fold (clockRead w).
  change (_minInterval (ticker (clockRead w))) with (_minInterval (ticker w)).
  change (_frameDeltaTime (ticker (clockRead w)))
    with (getTimer w - _lastTimeUpdated (ticker w))%num.
  rewrite Hm. unfold getTimer, ofZ.
  destruct (_lastTimeUpdated (ticker w)); try reflexivity. now elim Hl.
Qed.

Lemma frozen_idle w0 w w' : idle w w' -> frozen w0 w -> frozen w0 w'.
Proof.
  intros (Ht & Hm & Hl) (Ht0 & Hm0 & Hl0). repeat split.
  1-4: eapply tickless_trans; eassumption.
  - congruence.
  - destruct Hl as [Hl|(z & Hz)]; [now rewrite Hl|now rewrite Hz].
Qed.

Lemma frozen_onFrame depth fuel w0 w :
  frozen w0 w -> frozen w0 (snd (onFrame (runScript depth) fuel w)).
Proof.
  intros Hw. pose proof Hw as (_ & Hm & Hl).
  rewrite onFrame_frozen by assumption.
  destruct (reRegister_effect (clockRead w)) as (Ht & _ & Hp & _ & _ & Hl' & _).
  apply pumpState_eq in Hp as (H1 & H2 & H3 & H4 & _).
  apply (frozen_idle w0 w); [|exact Hw].
  repeat split; trivial; [|now left].
  exists []. now rewrite app_nil_r.
Qed.

Lemma frozen_step depth fuel w0 op w :
  frozen w0 w -> frozen w0 (snd (step depth fuel op w)).
Proof.
  intros Hw.
  destruct op; try (apply (frozen_idle w0 w); [apply step_idle; exact I|exact Hw]);
    simpl.
  - destruct (isPending handle w); trivial.
    apply frozen_onFrame. exact Hw.
  - now apply frozen_onFrame.
Qed.

(** X10. With [maxFPS] 0 the constructor makes [minInterval] infinite
    ([1000 / 0]), and no frame ever passes the gate: through any life of
    such a ticker the counters do not move and nothing is dispatched on
    the tick signals. *)
Theorem zero_maxFPS_never_ticks (depth fuel : nat) (ops : list Op) (w : World) :
  _minInterval (ticker w) = (ofZ 1000 / ofZ 0)%num ->
  _lastTimeUpdated (ticker w) <> NegInf ->
  let w' := snd (lifetime depth fuel ops w) in
  _currentTick (ticker w') = _currentTick (ticker w) /\
  _currentTime (ticker w') = _currentTime (ticker w) /\
  _tickDeltaTime (ticker w') = _tickDeltaTime (ticker w) /\
  exists evs, trace w' = trace w ++ evs /\ tickDispatches evs = [].
Proof.
  intros Hm Hl.
  assert (H0 : frozen w w) by (split; [apply tickless_refl|now split]).
  assert (H : frozen w (snd (lifetime depth fuel ops w))).
  { revert H0. generalize w at 2 4 as w1.
    induction ops as [|op rest IH]; intros w1 Hw1; simpl; trivial.
    pose proof (frozen_step depth fuel w op w1 Hw1) as H1.
    destruct (step depth fuel op w1) as [[] w2]; simpl in *; auto. }
  apply H.
Qed.

Lemma zero_maxFPS_never_ticks_witness :
  let w := cappedAtZero in
  let ops := [Frame 1; SetClock 1000; Frame 2; Pause; Resume; SetClock 2000; StaleFrame] in
  _minInterval (ticker w) = (ofZ 1000 / ofZ 0)%num /\
  _lastTimeUpdated (ticker w) <> NegInf /\
  let w' := snd (lifetime 2 3 ops w) in
  _currentTick (ticker w') = _currentTick (ticker w) /\
  _currentTime (ticker w') = _currentTime (ticker w) /\
  _tickDeltaTime (ticker w') = _tickDeltaTime (ticker w) /\
  exists evs, trace w' = trace w ++ evs /\ tickDispatches evs = [].
Proof.
  intros w ops.
  assert (Hm : _minInterval (ticker w) = (ofZ 1000 / ofZ 0)%num) by (vm_compute; reflexivity).
  assert (Hl : _lastTimeUpdated (ticker w) <> NegInf) by (vm_compute; discriminate).
  split; [exact Hm|]. split; [exact Hl|].
  exact (zero_maxFPS_never_ticks 2 3 ops w Hm Hl).
Defined.

(** ** Not a number *)

(** X11. Once [currentTime] is [NaN], as after a tick taken with a time
    scale that is [NaN], nothing brings it back: it is [NaN] through the
    rest of the life of the ticker. *)
Theorem currentTime_stays_NaN (depth fuel : nat) (ops : list Op) (w : World) :
  _currentTime (ticker w) = NaN ->
  _currentTime (ticker (snd (lifetime depth fuel ops w))) = NaN.
Proof.
  intros Hw.
  apply (life_lifetime anyListener (fun _ => True)
           (fun w' => _currentTime (ticker w') = NaN)); trivial.
  - intros w1 w2 H H1. now destruct H.
  - intros w1 w2 H H1. destruct H; simpl; trivial.
    + now rewrite H1.
    + now destruct ch.
  - intros; exact I.
  - apply Forall_forall. intros; exact I.
Qed.

Lemma currentTime_stays_NaN_witness :
  let w := tickedWithNaN in
  let ops := [AssignTimeScale (ofZ 1); SetClock 32; Frame 2; Pause; Resume;
              SetClock 48; Frame 3] in
  _currentTime (ticker w) = NaN /\
  _currentTime (ticker (snd (lifetime 0 0 ops w))) = NaN.
Proof.
  intros w ops.
  assert (Hw : _currentTime (ticker w) = NaN) by (vm_compute; reflexivity).
  split; [exact Hw|].
  exact (currentTime_stays_NaN 0 0 ops w Hw).
Defined.
